(** * Acquisition ranking for active learning: [query/query.py]

    A shallow embedding of [QuerySampler] (strategy dispatch, index
    translation, assembly of the [ActiveStore]) and of the helpers
    [obtain_data_from_pool], [evaluate_accuracy] and [vis_callback].

    Python objects that live on the heap and are passed by reference (the
    data module with its pool) are kept in a [World]; every function of the
    source is a computation in a small state-and-exception monad over it.
    Scores are real numbers in the specification; they are rationals here. *)

From Stdlib Require Import String Ascii Bool Arith ZArith QArith List.
From Stdlib Require Import Lia Lqa Sorted Permutation DecimalString.
From Stdlib Require DecimalPos DecimalZ.
Import ListNotations.

Open Scope string_scope.
Open Scope Z_scope.
Open Scope nat_scope.
Open Scope list_scope.

(** ** Exceptions, results, observable events *)

Inductive Exception : Type :=
| NotImplementedError            (* the specification's UnsupportedStrategy *)
| EmptyPool
| IndexError
| RuntimeError
| ZeroDivisionError
| OtherError (msg : string).

Inductive Result (A : Type) : Type :=
| Ok (a : A)
| Raise (e : Exception).
Arguments Ok {A} a.
Arguments Raise {A} e.

Inductive Event : Type :=
| Forward (n : nat)              (* the model evaluated a batch of n inputs *)
| DiversityQuery                 (* the diversity sampler was run *)
| Print (msg : string)
| SaveFig (path : string)
| Clf.

(** ** [query.storing.ActiveStore] *)

Module storing.

Record ActiveStore : Type := {
  requests : list nat;
  n_labelled : nat;
  accuracy_val : Q;
  accuracy_test : Q;
  labels : list Z
}.

End storing.

(** ** Strings: [str.split] on a one-character separator *)

Fixpoint split (sep : ascii) (s : string) : list string :=
  match s with
  | EmptyString => [EmptyString]
  | String c s' =>
      if Ascii.eqb c sep then EmptyString :: split sep s'
      else match split sep s' with
           | [] => [String c EmptyString]
           | w :: ws => String c w :: ws
           end
  end.

(** The separator does not occur in the string. *)
Fixpoint free_of (sep : ascii) (s : string) : bool :=
  match s with
  | EmptyString => true
  | String c s' => negb (Ascii.eqb c sep) && free_of sep s'
  end.

(** [x in names] for a collection of strings. *)
Definition contains (x : string) (names : list string) : bool :=
  existsb (String.eqb x) names.

(** [acq_method.split("_")[0]] *)
Definition strategy_prefix (acq_method : string) : string :=
  hd EmptyString (split "_"%char acq_method).

(** [str(count)] for an integer. *)
Definition str_of_int (z : Z) : string := NilZero.string_of_int (Z.to_int z).

(** [os.path.join(dir, name)] for a relative [name]. *)
Definition path_join (dir name : string) : string :=
  (dir ++ "/" ++ name)%string.

(** ** Scored indices and the two selection procedures *)

Definition ScoredIndex : Type := (nat * Q)%type.
Definition index (e : ScoredIndex) : nat := fst e.
Definition score (e : ScoredIndex) : Q := snd e.

(** [enumerate scores]: the pairs (pool-local index, score), in encounter
    order, indices counted from [offset]. *)
Definition enumerate_from (offset : nat) (scores : list Q) : list ScoredIndex :=
  combine (seq offset (length scores)) scores.

(** Insertion into a buffer kept in descending score order: the new entry,
    encountered later than every entry of the buffer, goes after the
    entries whose score is greater than or equal to its own. *)
Fixpoint insert_late (e : ScoredIndex) (buf : list ScoredIndex) : list ScoredIndex :=
  match buf with
  | [] => [e]
  | y :: ys =>
      if Qle_bool (score e) (score y) then y :: insert_late e ys
      else e :: y :: ys
  end.

(** One step of the bounded running selection: insert, keep the best [k]. *)
Definition push (k : nat) (buf : list ScoredIndex) (e : ScoredIndex) : list ScoredIndex :=
  firstn k (insert_late e buf).

(** The reference of the specification: a stable descending sort of all
    pairs.  [insert_desc e sorted] places [e], which was encountered before
    every entry of [sorted], in front of the first entry whose score is not
    strictly greater. *)
Fixpoint insert_desc (e : ScoredIndex) (sorted : list ScoredIndex) : list ScoredIndex :=
  match sorted with
  | [] => [e]
  | y :: ys =>
      if Qle_bool (score y) (score e) then e :: y :: ys
      else y :: insert_desc e ys
  end.

Definition stable_sort_desc (l : list ScoredIndex) : list ScoredIndex :=
  fold_right insert_desc [] l.

(** Sort, then truncate to [k]. *)
Definition sort_then_truncate (k : nat) (l : list ScoredIndex) : list ScoredIndex :=
  firstn k (stable_sort_desc l).

(** [a] is ranked before [b]: strictly greater score, or the same score and
    a lower encounter index. *)
Definition ranks_before (a b : ScoredIndex) : Prop :=
  (score b < score a)%Q \/ ((score b == score a)%Q /\ index a < index b).

(** Entries with increasing indices: the encounter order. *)
Definition encounter_order (l : list ScoredIndex) : Prop :=
  StronglySorted (fun a b => index a < index b) l.

(** ** [torch.argmax]: position of the first maximal value *)

Fixpoint argmax_from (best : nat) (best_val : Q) (pos : nat) (l : list Q) : nat :=
  match l with
  | [] => best
  | v :: vs =>
      if Qle_bool v best_val then argmax_from best best_val (S pos) vs
      else argmax_from pos v (S pos) vs
  end.

Definition argmax (l : list Q) : option nat :=
  match l with
  | [] => None
  | v :: vs => Some (argmax_from 0 v 1 vs)
  end.

(** Number of positions at which the prediction equals the target. *)
Fixpoint count_equal (pred : list nat) (y : list Z) : nat :=
  match pred, y with
  | p :: ps, t :: ts => (if Z.eqb (Z.of_nat p) t then 1 else 0) + count_equal ps ts
  | _, _ => 0
  end.

(** The range of [torch.int]. *)
Definition fits_int32 (z : Z) : bool :=
  (Z.leb (- 2 ^ 31) z && Z.ltb z (2 ^ 31))%Z.

Definition shape_eqb (a b : list nat) : bool :=
  if list_eq_dec Nat.eq_dec a b then true else false.


(** ** Data *)

(** An array: its shape and its entries. *)
Record Tensor : Type := {
  shape : list nat;
  values : list Q
}.

(** The raw output of an acquisition function for one sample and one
    stochastic pass: a scalar or a vector. *)
Definition Raw : Type := list Q.

Definition Batch : Type := list Tensor.
Definition Loader : Type := list Batch.

(** The pool loader is built for a number of stochastic passes. *)
Record PoolLoader : Type := {
  loader_m : nat;
  loader_batches : Loader
}.

(** A batch [(x, y)] of an evaluation split: inputs with their targets. *)
Definition EvalBatch : Type := list (Tensor * Z).
Definition EvalLoader : Type := list EvalBatch.

(** The classifier: one class-score vector per input. *)
Definition Model : Type := Tensor -> list Q.

(** [datamodule.train_set] *)
Record TrainSet : Type := {
  pool : list (Tensor * Z);
  n_labelled : nat
}.

(** The data module, as far as [query.py] uses it. *)
Record DataModule : Type := {
  batch_size : nat;
  num_classes : nat;
  train_set : TrainSet;
  pool_dataloader : nat -> nat -> PoolLoader;
  labeled_dataloader : nat -> Loader;
  pool_index_map : nat -> nat;
  val_dataloader : option EvalLoader;
  test_dataloader : option EvalLoader
}.

(** Modelled from the spec: [BaseDataModule.get_pool_indices] is not part of
    [query.py].  It is "a pure translation" of pool-local indices into
    caller-visible ones that "must preserve order and cardinality": the
    data module's index map applied to each index in turn. *)
Definition get_pool_indices (dm : DataModule) (inds : list nat) : list nat :=
  map (pool_index_map dm) inds.

Record Cfg : Type := {
  active_m : nat;
  active_acq_size : nat;
  query_name : string
}.

(** Number of samples the loader presents in one pass: the pool size of the
    round. *)
Definition pool_size (pool_loader : PoolLoader) : nat :=
  length (concat (loader_batches pool_loader)).

(** ** The heap and the monad *)

Record World : Type := {
  datamodule : DataModule;
  events : list Event
}.

Definition M (A : Type) : Type := World -> Result A * World.

Definition ret {A} (a : A) : M A := fun w => (Ok a, w).

Definition bind {A B} (c : M A) (f : A -> M B) : M B :=
  fun w =>
    match c w with
    | (Ok a, w') => f a w'
    | (Raise e, w') => (Raise e, w')
    end.

Definition raise {A} (e : Exception) : M A := fun w => (Raise e, w).

(** Result of a call into a collaborator that has no access to the heap. *)
Definition lift {A} (r : Result A) : M A := fun w => (r, w).

Definition tell (ev : Event) : M unit :=
  fun w => (Ok tt, {| datamodule := datamodule w; events := events w ++ [ev] |}).

Definition get_datamodule : M DataModule := fun w => (Ok (datamodule w), w).

(** [try: body  except: handler] with a bare [except], which catches every
    exception. *)
Definition try_except {A} (body : M A) (handler : M A) : M A :=
  fun w =>
    match body w with
    | (Ok a, w') => (Ok a, w')
    | (Raise _, w') => handler w'
    end.

(** The computation leaves the data module as it was. *)
Definition frame {A : Type} (c : M A) : Prop :=
  forall w : World, datamodule (snd (c w)) = datamodule w.

Declare Scope monad_scope.
Delimit Scope monad_scope with monad.
Notation "x <- c1 ;; c2" := (bind c1 (fun x => c2))
  (at level 61, c1 at next level, right associativity) : monad_scope.
Notation "' pat <- c1 ;; c2" := (bind c1 (fun x => match x with pat => c2 end))
  (at level 61, pat pattern, c1 at next level, right associativity) : monad_scope.
Notation "c1 ;; c2" := (bind c1 (fun _ => c2))
  (at level 61, right associativity) : monad_scope.
Open Scope monad_scope.

(** ** What [query.py] imports *)

Class Imports : Type := {
  (** [query_uncertainty.names], [query_diversity.names] *)
  query_uncertainty_names : list string;
  query_diversity_names : list string;
  (** [query_uncertainty.get_acq_function(cfg, model)]: the function scores
      one sample in one stochastic pass. *)
  query_uncertainty_get_acq_function : Cfg -> Model -> nat -> Tensor -> Raw;
  (** [query_uncertainty.get_post_acq_function(cfg, device)]: reduces the raw
      scores of the passes over one sample to a scalar. *)
  query_uncertainty_get_post_acq_function : Cfg -> string -> list Raw -> Q;
  (** [query_diversity.query_sampler(cfg, model, labeled_loader, pool_loader,
      acq_size)], opaque. *)
  query_diversity_query_sampler :
    Cfg -> Model -> Loader -> PoolLoader -> nat -> Result (list nat * list Q);
  (** [plotlib.active_plots], [matplotlib.pyplot.savefig] *)
  active_plots_normalize : list Tensor -> Result (list Tensor);
  active_plots_visualize_samples : list Tensor -> list Q -> Result unit;
  active_plots_visualize_labels : list Z -> nat -> Result unit;
  plt_savefig : string -> Result unit
}.

Section Program.

Context `{Imports}.

(** ** [query_uncertainty.query_sampler] *)

(** The scalar score of one sample: [m] passes of the acquisition function,
    reduced by the post-acquisition function. *)
Definition sample_score (acq_function : nat -> Tensor -> Raw)
    (post_acq_function : list Raw -> Q) (m : nat) (x : Tensor) : Q :=
  post_acq_function (map (fun pass => acq_function pass x) (seq 0 m)).

(** One forward pass over the batch per stochastic pass. *)
Fixpoint forward_passes (m n : nat) : M unit :=
  match m with
  | O => ret tt
  | S m' => tell (Forward n) ;; forward_passes m' n
  end.

Definition score_batch (acq_function : nat -> Tensor -> Raw)
    (post_acq_function : list Raw -> Q) (m : nat) (batch : Batch) : M (list Q) :=
  forward_passes m (length batch) ;;
  ret (map (sample_score acq_function post_acq_function m) batch).

(** The pass over the pool: [offset] is the running pool-local index, [topk]
    the bounded running selection. *)
Fixpoint scan_pool (acq_function : nat -> Tensor -> Raw)
    (post_acq_function : list Raw -> Q) (m acq_size : nat)
    (batches : Loader) (offset : nat) (topk : list ScoredIndex)
    : M (nat * list ScoredIndex) :=
  match batches with
  | [] => ret (offset, topk)
  | batch :: rest =>
      scores <- score_batch acq_function post_acq_function m batch ;;
      scan_pool acq_function post_acq_function m acq_size rest
        (offset + length scores)
        (fold_left (push acq_size) (enumerate_from offset scores) topk)
  end.

(** Modelled from the spec: [query_uncertainty.query_sampler] is not part of
    [query.py].  The uncertainty policy iterates the pool in batches, invokes
    the acquisition function once per stochastic pass and reduces the raw
    scores of each sample to a scalar; pool-local indices are the running
    offset across batches; the selection is a bounded running structure
    holding the [acq_size] highest scores, earlier entries first among equal
    scores; a pool of size zero is the error [EmptyPool]. *)
Definition query_uncertainty_query_sampler (pool_loader : PoolLoader)
    (acq_function : nat -> Tensor -> Raw) (post_acq_function : list Raw -> Q)
    (acq_size : nat) (device : string) : M (list nat * list Q) :=
  '(n, topk) <-
    scan_pool acq_function post_acq_function (loader_m pool_loader) acq_size
      (loader_batches pool_loader) 0 [] ;;
  if Nat.eqb n 0 then raise EmptyPool
  else ret (map index topk, map score topk).

(** ** [QuerySampler] *)

Record QuerySampler : Type := {
  self_cfg : Cfg;
  self_count : option Z;
  self_device : string;
  self_m : nat;
  self_acq_size : nat;
  self_acq_method : string;
  self_model : Model
}.

(** [QuerySampler.__init__]; the model is moved to the device and put in
    inference mode here, once. *)
Definition QuerySampler_init (cfg : Cfg) (model : Model) (count : option Z)
    (device : string) : QuerySampler :=
  {| self_cfg := cfg;
     self_count := count;
     self_device := device;
     self_m := active_m cfg;
     self_acq_size := active_acq_size cfg;
     self_acq_method := query_name cfg;
     self_model := model |}.

Definition ranking_step (self : QuerySampler) (pool_loader : PoolLoader)
    (labeled_loader : Loader) : M (list nat * list Q) :=
  let acq_size := self_acq_size self in
  if contains (strategy_prefix (self_acq_method self)) query_uncertainty_names then
    let acq_function :=
      query_uncertainty_get_acq_function (self_cfg self) (self_model self) in
    let post_acq_function :=
      query_uncertainty_get_post_acq_function (self_cfg self) (self_device self) in
    query_uncertainty_query_sampler pool_loader acq_function post_acq_function
      acq_size (self_device self)
  else if contains (strategy_prefix (self_acq_method self)) query_diversity_names then
    tell DiversityQuery ;;
    lift (query_diversity_query_sampler (self_cfg self) (self_model self)
            labeled_loader pool_loader acq_size)
  else raise NotImplementedError.

Definition query_samples (self : QuerySampler) : M (list nat * list Q) :=
  dm <- get_datamodule ;;
  let pool_loader := pool_dataloader dm (batch_size dm) (self_m self) in
  let labeled_loader := labeled_dataloader dm (batch_size dm) in
  '(acq_inds, acq_vals) <- ranking_step self pool_loader labeled_loader ;;
  dm <- get_datamodule ;;
  let acq_inds := get_pool_indices dm acq_inds in
  ret (acq_inds, acq_vals).

(** ** [obtain_data_from_pool] *)

(** [pool[ind]] *)
Definition getitem (pool : list (Tensor * Z)) (ind : nat) : M (Tensor * Z) :=
  match nth_error pool ind with
  | Some sample => ret sample
  | None => raise IndexError
  end.

(** The loop of [obtain_data_from_pool], appending to [data] and [labels]. *)
Fixpoint obtain_loop (pool : list (Tensor * Z)) (indices : list nat)
    (data : list Tensor) (labels : list Z) : M (list Tensor * list Z) :=
  match indices with
  | [] => ret (data, labels)
  | ind :: rest =>
      sample <- getitem pool ind ;;
      obtain_loop pool rest (data ++ [fst sample]) (labels ++ [snd sample])
  end.

(** [torch.stack(data, dim=0)]: needs at least one array, all of one shape. *)
Definition torch_stack (data : list Tensor) : M (list Tensor) :=
  match data with
  | [] => raise RuntimeError
  | t :: ts =>
      if forallb (fun u => shape_eqb (shape u) (shape t)) ts then ret data
      else raise RuntimeError
  end.

(** [torch.tensor(labels, dtype=torch.int)]: a value outside the range of the
    type is refused. *)
Definition torch_tensor_int (labels : list Z) : M (list Z) :=
  if forallb fits_int32 labels then ret labels else raise RuntimeError.

Definition obtain_data_from_pool (pool : list (Tensor * Z)) (indices : list nat)
    : M (list Tensor * list Z) :=
  '(data, labels) <- obtain_loop pool indices [] [] ;;
  data <- torch_stack data ;;
  labels <- torch_tensor_int labels ;;
  ret (data, labels).

(** ** [evaluate_accuracy] *)

(** [torch.argmax(out, dim=1)] *)
Fixpoint argmax_dim1 (out : list (list Q)) : M (list nat) :=
  match out with
  | [] => ret []
  | row :: rows =>
      match argmax row with
      | None => raise RuntimeError
      | Some p => ps <- argmax_dim1 rows ;; ret (p :: ps)
      end
  end.

Fixpoint evaluate_loop (model : Model) (dataloader : EvalLoader)
    (correct counts : nat) : M (nat * nat) :=
  match dataloader with
  | [] => ret (correct, counts)
  | batch :: rest =>
      let x := map fst batch in
      let y := map snd batch in
      tell (Forward (length x)) ;;
      let out := map model x in
      pred <- argmax_dim1 out ;;
      evaluate_loop model rest (correct + count_equal pred y) (counts + length y)
  end.

(** [correct / counts] on integers: true division. *)
Definition true_div (correct counts : nat) : M Q :=
  match counts with
  | O => raise ZeroDivisionError
  | S _ => ret (Z.of_nat correct # Pos.of_nat counts)
  end.

Definition evaluate_accuracy (model : Model) (dataloader : option EvalLoader)
    (device : string) : M Q :=
  match dataloader with
  | None => ret 0%Q
  | Some batches =>
      '(correct, counts) <- evaluate_loop model batches 0 0 ;;
      true_div correct counts
  end.

(** ** [vis_callback] *)

Definition savefig (path : string) : M unit :=
  lift (plt_savefig path) ;; tell (SaveFig path).

Definition vis_callback (n_labelled : nat) (acq_labels : list Z)
    (acq_data : list Tensor) (acq_vals : list Q) (num_classes : nat)
    (count : option Z) : M unit :=
  let suffix :=
    match count with
    | Some c => ("_" ++ str_of_int c)%string
    | None => EmptyString
    end in
  let vis_path := "." in
  normalized <- lift (active_plots_normalize acq_data) ;;
  lift (active_plots_visualize_samples normalized acq_vals) ;;
  savefig (path_join vis_path ("labeled_samples" ++ suffix ++ ".pdf")%string) ;;
  tell Clf ;;
  lift (active_plots_visualize_labels acq_labels num_classes) ;;
  savefig (path_join vis_path ("labelled_targets" ++ suffix ++ ".pdf")%string) ;;
  tell Clf.

Definition no_vis_message : string :=
  ("No Visualization with vis_callback function possible! "
     ++ String (ascii_of_nat 10) " Trying to Continue")%string.

(** ** [QuerySampler.active_callback] *)

Definition active_callback (self : QuerySampler) (vis : bool)
    : M storing.ActiveStore :=
  '(acq_inds, acq_vals) <- query_samples self ;;
  dm <- get_datamodule ;;
  '(acq_data, acq_labels) <- obtain_data_from_pool (pool (train_set dm)) acq_inds ;;
  dm <- get_datamodule ;;
  let n_lab := n_labelled (train_set dm) in
  dm <- get_datamodule ;;
  accuracy_val <- evaluate_accuracy (self_model self) (val_dataloader dm)
                    (self_device self) ;;
  dm <- get_datamodule ;;
  accuracy_test <- evaluate_accuracy (self_model self) (test_dataloader dm)
                     (self_device self) ;;
  (if vis then
     dm <- get_datamodule ;;
     try_except
       (vis_callback n_lab acq_labels acq_data acq_vals (num_classes dm)
          (self_count self))
       (tell (Print no_vis_message))
   else ret tt) ;;
  ret {| storing.requests := acq_inds;
         storing.n_labelled := n_lab;
         storing.accuracy_val := accuracy_val;
         storing.accuracy_test := accuracy_test;
         storing.labels := acq_labels |}.

(** ** Vocabulary of the statements *)

(** The scores of all pool samples, in encounter order, as the uncertainty
    policy computes them for this sampler. *)
Definition pool_scores (self : QuerySampler) (pool_loader : PoolLoader) : list Q :=
  map (sample_score
         (query_uncertainty_get_acq_function (self_cfg self) (self_model self))
         (query_uncertainty_get_post_acq_function (self_cfg self) (self_device self))
         (loader_m pool_loader))
      (concat (loader_batches pool_loader)).

(** [pool[ind]] for every index, when all of them are in range. *)
Fixpoint lookup_all (pool : list (Tensor * Z)) (indices : list nat)
    : option (list (Tensor * Z)) :=
  match indices with
  | [] => Some []
  | ind :: rest =>
      match nth_error pool ind, lookup_all pool rest with
      | Some sample, Some samples => Some (sample :: samples)
      | _, _ => None
      end
  end.

(** The loaders [query_samples] obtains from the data module. *)
Definition current_pool_loader (self : QuerySampler) (w : World) : PoolLoader :=
  pool_dataloader (datamodule w) (batch_size (datamodule w)) (self_m self).

Definition current_labeled_loader (w : World) : Loader :=
  labeled_dataloader (datamodule w) (batch_size (datamodule w)).

Inductive Family : Type := Uncertainty | Diversity.

(** Which branch of [ranking_step] a strategy name takes. *)
Definition resolve (acq_method : string) : option Family :=
  if contains (strategy_prefix acq_method) query_uncertainty_names then Some Uncertainty
  else if contains (strategy_prefix acq_method) query_diversity_names then Some Diversity
  else None.

(** The shape of a ranking result for a pool of size [p]. *)
Definition ranking_shape (acq_size p : nat) (inds : list nat) (vals : list Q) : Prop :=
  length inds = Nat.min acq_size p /\
  length vals = length inds /\
  NoDup inds /\
  Forall (fun i => i < p) inds.

(** The call contract of the opaque diversity sampler, at the arguments of
    one round: a result of the right shape for a non-empty pool, the error
    [EmptyPool] for an empty one. *)
Definition diversity_contract (self : QuerySampler) (pool_loader : PoolLoader)
    (labeled_loader : Loader) : Prop :=
  match query_diversity_query_sampler (self_cfg self) (self_model self)
          labeled_loader pool_loader (self_acq_size self) with
  | Ok (inds, vals) =>
      0 < pool_size pool_loader /\
      ranking_shape (self_acq_size self) (pool_size pool_loader) inds vals
  | Raise e => pool_size pool_loader = 0 /\ e = EmptyPool
  end.

(** The round runs the uncertainty policy, or the diversity policy with a
    sampler that keeps its contract. *)
Definition policy_available (self : QuerySampler) (pool_loader : PoolLoader)
    (labeled_loader : Loader) : Prop :=
  resolve (self_acq_method self) = Some Uncertainty \/
  (resolve (self_acq_method self) = Some Diversity /\
   diversity_contract self pool_loader labeled_loader).

(** ** Vocabulary of the further statements *)

(** The model classifies the sample correctly: the first maximal class score
    is at the position of the target. *)
Definition classified_correctly (model : Model) (sample : Tensor * Z) : bool :=
  match argmax (model (fst sample)) with
  | Some p => Z.eqb (Z.of_nat p) (snd sample)
  | None => false
  end.

Definition n_correct (model : Model) (samples : list (Tensor * Z)) : nat :=
  length (filter (classified_correctly model) samples).

(** Events of scoring and evaluation, and events of visualization. *)
Definition is_forward (ev : Event) : bool :=
  match ev with
  | Forward _ | DiversityQuery => true
  | _ => false
  end.

Definition is_plotting (ev : Event) : bool :=
  match ev with
  | SaveFig _ | Clf | Print _ => true
  | _ => false
  end.

(** The computation only appends to the log, and only events of one kind. *)
Definition logs_only {A : Type} (kind : Event -> bool) (c : M A) : Prop :=
  forall w : World,
  exists evs : list Event,
    events (snd (c w)) = events w ++ evs /\ forallb kind evs = true.

(** The two figures of [vis_callback] for a count, and what a complete
    visualization logs. *)
Definition figure_suffix (count : option Z) : string :=
  match count with
  | Some c => ("_" ++ str_of_int c)%string
  | None => EmptyString
  end.

Definition samples_figure (count : option Z) : string :=
  ("./labeled_samples" ++ figure_suffix count ++ ".pdf")%string.

Definition targets_figure (count : option Z) : string :=
  ("./labelled_targets" ++ figure_suffix count ++ ".pdf")%string.

Definition vis_events (count : option Z) : list Event :=
  [SaveFig (samples_figure count); Clf; SaveFig (targets_figure count); Clf].


(** What a computation appends to the log when run in [w]. *)
Definition new_events {A : Type} (c : M A) (w : World) : list Event :=
  skipn (length (events w)) (events (snd (c w))).

(** The visualizing run logs what the other run logs, and then plotting
    events only. *)
Definition vis_extends {A : Type} (r_vis r_plain : Result A * World) : Prop :=
  exists evs : list Event,
    events (snd r_vis) = events (snd r_plain) ++ evs /\
    forallb is_plotting evs = true.

End Program.

(** ** A concrete round: the example of the specification

    A pool of ten samples with the scores 0.1, 0.9, 0.3, 0.9, 0.2, 0.05, 0.4,
    0.9, 0.6, 0.0, presented in batches of four; the loader iterates the even
    positions of a pool data set of twenty samples, so that the pool-local
    index [i] is the caller-visible index [2 * i]. *)

Module Scenario.

Definition scalar (q : Q) : Tensor := {| shape := [1]; values := [q] |}.

Definition example_scores : list Q :=
  [1#10; 9#10; 3#10; 9#10; 2#10; 5#100; 4#10; 9#10; 6#10; 0#1]%Q.

(** The score of a sample is its entry. *)
Definition imports : Imports := {|
  query_uncertainty_names := ["entropy"; "bald"; "random"];
  query_diversity_names := ["kcentergreedy"; "badge"];
  query_uncertainty_get_acq_function := fun _ _ _ x => values x;
  query_uncertainty_get_post_acq_function :=
    fun _ _ raws => hd 0%Q (hd [] raws);
  query_diversity_query_sampler :=
    fun _ _ _ pool_loader acq_size =>
      match pool_size pool_loader with
      | O => Raise EmptyPool
      | S _ as p =>
          Ok (seq 0 (Nat.min acq_size p), repeat 0%Q (Nat.min acq_size p))
      end;
  active_plots_normalize := fun data => Ok data;
  active_plots_visualize_samples := fun _ _ => Raise (OtherError "no display");
  active_plots_visualize_labels := fun _ _ => Ok tt;
  plt_savefig := fun _ => Ok tt
|}.

(** The same imports with a plotting backend that works. *)
Definition imports_plotting : Imports := {|
  query_uncertainty_names := ["entropy"; "bald"; "random"];
  query_diversity_names := ["kcentergreedy"; "badge"];
  query_uncertainty_get_acq_function := fun _ _ _ x => values x;
  query_uncertainty_get_post_acq_function :=
    fun _ _ raws => hd 0%Q (hd [] raws);
  query_diversity_query_sampler :=
    fun _ _ _ _ _ => Raise EmptyPool;
  active_plots_normalize := fun data => Ok data;
  active_plots_visualize_samples := fun _ _ => Ok tt;
  active_plots_visualize_labels := fun _ _ => Ok tt;
  plt_savefig := fun _ => Ok tt
|}.

#[local] Existing Instance imports.

(** Class 1 when the entry exceeds one half, class 0 otherwise. *)
Definition model : Model :=
  fun x => let v := hd 0%Q (values x) in [(1 - v)%Q; v].

Definition pool_batches : Loader :=
  [map scalar (firstn 4 example_scores);
   map scalar (firstn 4 (skipn 4 example_scores));
   map scalar (skipn 8 example_scores)].

(** Position [2 * i] holds sample [i] of the loader, with label [i mod 3]. *)
Definition pool_dataset : list (Tensor * Z) :=
  flat_map (fun '(i, q) => [(scalar q, Z.of_nat (i mod 3)); (scalar 0%Q, 0%Z)])
           (enumerate_from 0 example_scores).

Definition val_split : EvalLoader :=
  [[(scalar (9#10)%Q, 1%Z); (scalar (1#10)%Q, 1%Z)]; [(scalar (2#10)%Q, 0%Z)]].

Definition dm : DataModule := {|
  batch_size := 4;
  num_classes := 3;
  train_set := {| pool := pool_dataset; n_labelled := 5 |};
  pool_dataloader := fun _ m => {| loader_m := m; loader_batches := pool_batches |};
  labeled_dataloader := fun _ => [];
  pool_index_map := fun i => 2 * i;
  val_dataloader := Some val_split;
  test_dataloader := None
|}.

(** The same data module with no sample left in the pool. *)
Definition dm_empty : DataModule := {|
  batch_size := 4;
  num_classes := 3;
  train_set := {| pool := []; n_labelled := 25 |};
  pool_dataloader := fun _ m => {| loader_m := m; loader_batches := [] |};
  labeled_dataloader := fun _ => [];
  pool_index_map := fun i => i;
  val_dataloader := Some val_split;
  test_dataloader := None
|}.

Definition cfg (name : string) : Cfg :=
  {| active_m := 1; active_acq_size := 3; query_name := name |}.

Definition sampler (name : string) : QuerySampler :=
  QuerySampler_init (cfg name) model (Some 2%Z) "cuda:0".

Definition w0 : World := {| datamodule := dm; events := [] |}.

Definition w_empty : World := {| datamodule := dm_empty; events := [] |}.

(** The pool loader of the round, and the one over the empty pool. *)
Definition pl : PoolLoader := {| loader_m := 1; loader_batches := pool_batches |}.
Definition pl_empty : PoolLoader := {| loader_m := 1; loader_batches := [] |}.

(** The record the round is expected to return: pool-local indices 1, 3, 7
    are the positions 2, 6, 14 of the pool data set, with labels 1, 0, 1;
    two of the three validation samples are classified correctly; there is
    no test split. *)
Definition expected_store : storing.ActiveStore := {|
  storing.requests := [2; 6; 14];
  storing.n_labelled := 5;
  storing.accuracy_val := (2 # 3)%Q;
  storing.accuracy_test := 0%Q;
  storing.labels := [1%Z; 0%Z; 1%Z]
|}.

(** A sampler configured to acquire nothing. *)
Definition sampler_none : QuerySampler :=
  QuerySampler_init {| active_m := 1; active_acq_size := 0; query_name := "entropy" |}
    model None "cpu".

(** The data module with an index translation that points outside the pool. *)
Definition dm_stale : DataModule := {|
  batch_size := 4;
  num_classes := 3;
  train_set := {| pool := pool_dataset; n_labelled := 5 |};
  pool_dataloader := fun _ m => {| loader_m := m; loader_batches := pool_batches |};
  labeled_dataloader := fun _ => [];
  pool_index_map := fun i => 100 + i;
  val_dataloader := Some val_split;
  test_dataloader := None
|}.

Definition w_stale : World := {| datamodule := dm_stale; events := [] |}.

End Scenario.

(** * The prefix of a strategy name *)

Lemma split_head_before (sep : ascii) (p rest : string) :
  free_of sep p = true ->
  hd EmptyString (split sep (p ++ String sep rest)) = p.
Proof.
  induction p as [| c p IH]; simpl; intros Hp.
  - rewrite Ascii.eqb_refl. reflexivity.
  - apply andb_true_iff in Hp. destruct Hp as [Hc Hp].
    apply negb_true_iff in Hc. rewrite Hc. specialize (IH Hp).
    destruct (split sep (p ++ String sep rest)) as [| w ws]; simpl in *;
      rewrite IH; reflexivity.
Qed.

Lemma split_head_whole (sep : ascii) (s : string) :
  free_of sep s = true -> hd EmptyString (split sep s) = s.
Proof.
  induction s as [| c s IH]; simpl; intros Hs.
  - reflexivity.
  - apply andb_true_iff in Hs. destruct Hs as [Hc Hs].
    apply negb_true_iff in Hc. rewrite Hc. specialize (IH Hs).
    destruct (split sep s) as [| w ws]; simpl in *; rewrite IH; reflexivity.
Qed.

(** The prefix is the part of the name before its first underscore, the
    whole name when it has none. *)
Lemma strategy_prefix_before (p rest : string) :
  free_of "_" p = true ->
  strategy_prefix (p ++ String "_" rest) = p /\ strategy_prefix p = p.
Proof.
  intros Hp. unfold strategy_prefix.
  split; [apply split_head_before | apply split_head_whole]; exact Hp.
Qed.

(** * The two selection procedures agree *)

Lemma Qle_bool_true (a b : Q) : Qle_bool a b = true -> (a <= b)%Q.
Proof. apply Qle_bool_iff. Qed.

Lemma Qle_bool_false (a b : Q) : Qle_bool a b = false -> (b < a)%Q.
Proof.
  intros E. destruct (Qlt_le_dec b a) as [L | L]; [exact L |].
  apply Qle_bool_iff in L. congruence.
Qed.

(** Case analysis on every score comparison of the goal, the outcomes kept
    as order facts. *)
Ltac score_cases :=
  repeat match goal with
    | |- context [Qle_bool ?a ?b] =>
        let E := fresh "E" in
        destruct (Qle_bool a b) eqn:E;
        [apply Qle_bool_true in E | apply Qle_bool_false in E]
    end.

Lemma insert_late_insert_desc (x y : ScoredIndex) (s : list ScoredIndex) :
  insert_late x (insert_desc y s) = insert_desc y (insert_late x s).
Proof.
  induction s as [| z s IH]; simpl.
  - score_cases; try reflexivity; lra.
  - destruct (Qle_bool (score z) (score y)) eqn:Ezy;
      destruct (Qle_bool (score x) (score z)) eqn:Exz; simpl;
      rewrite ?Ezy, ?Exz;
      [apply Qle_bool_true in Ezy | apply Qle_bool_true in Ezy
       | apply Qle_bool_false in Ezy | apply Qle_bool_false in Ezy];
      [apply Qle_bool_true in Exz | apply Qle_bool_false in Exz
       | apply Qle_bool_true in Exz | apply Qle_bool_false in Exz].
    + score_cases; try reflexivity; lra.
    + score_cases; try reflexivity; lra.
    + rewrite IH. reflexivity.
    + score_cases; try reflexivity; lra.
Qed.

Lemma fold_insert_late_insert_desc (l : list ScoredIndex) :
  forall (y : ScoredIndex) (acc : list ScoredIndex),
    fold_left (fun buf e => insert_late e buf) l (insert_desc y acc)
    = insert_desc y (fold_left (fun buf e => insert_late e buf) l acc).
Proof.
  induction l as [| x l IH]; intros y acc; simpl.
  - reflexivity.
  - rewrite insert_late_insert_desc. apply IH.
Qed.

(** Inserting the entries one by one, each after its equals, sorts the
    list as the reference does. *)
Lemma fold_insert_late_sorts (l : list ScoredIndex) :
  fold_left (fun buf e => insert_late e buf) l [] = stable_sort_desc l.
Proof.
  induction l as [| y l IH]; simpl.
  - reflexivity.
  - change [y] with (insert_desc y []).
    rewrite fold_insert_late_insert_desc, IH. reflexivity.
Qed.

(** What is cut off from the buffer never comes back. *)
Lemma firstn_insert_late_firstn (k : nat) (x : ScoredIndex) :
  forall buf : list ScoredIndex,
    firstn k (insert_late x (firstn k buf)) = firstn k (insert_late x buf).
Proof.
  induction k as [| k IH]; intros buf.
  - reflexivity.
  - destruct buf as [| y ys]; simpl.
    + reflexivity.
    + destruct (Qle_bool (score x) (score y)); simpl.
      * rewrite IH. reflexivity.
      * f_equal. change (y :: firstn k ys) with (firstn (S k) (y :: ys)).
        rewrite firstn_firstn. f_equal. lia.
Qed.

Lemma fold_push_firstn (k : nat) (l : list ScoredIndex) :
  forall acc : list ScoredIndex,
    fold_left (push k) l (firstn k acc)
    = firstn k (fold_left (fun buf e => insert_late e buf) l acc).
Proof.
  induction l as [| x l IH]; intros acc; simpl.
  - reflexivity.
  - unfold push at 2. rewrite firstn_insert_late_firstn. apply IH.
Qed.

(** The bounded running selection is the stable descending sort, truncated. *)
Lemma running_selection_sorts (k : nat) (l : list ScoredIndex) :
  fold_left (push k) l [] = sort_then_truncate k l.
Proof.
  unfold sort_then_truncate. rewrite <- fold_insert_late_sorts.
  rewrite <- fold_push_firstn. rewrite firstn_nil. reflexivity.
Qed.

(** * The stable descending sort *)

Lemma insert_desc_perm (x : ScoredIndex) (s : list ScoredIndex) :
  Permutation (insert_desc x s) (x :: s).
Proof.
  induction s as [| y s IH]; simpl.
  - reflexivity.
  - destruct (Qle_bool (score y) (score x)).
    + reflexivity.
    + rewrite IH. apply perm_swap.
Qed.

Lemma stable_sort_desc_perm (l : list ScoredIndex) :
  Permutation (stable_sort_desc l) l.
Proof.
  induction l as [| x l IH]; simpl.
  - reflexivity.
  - rewrite insert_desc_perm. constructor. exact IH.
Qed.

Lemma insert_desc_ranked (x : ScoredIndex) (s : list ScoredIndex) :
  StronglySorted ranks_before s ->
  Forall (fun y => index x < index y) s ->
  StronglySorted ranks_before (insert_desc x s).
Proof.
  induction s as [| y s IH]; intros Hs Hx; simpl.
  - repeat constructor.
  - inversion Hs as [| ? ? Hs' Hy]; subst.
    inversion Hx as [| ? ? Hxy Hx']; subst.
    destruct (Qle_bool (score y) (score x)) eqn:E.
    + apply Qle_bool_true in E. constructor; [exact Hs |].
      assert (Rxy : ranks_before x y).
      { unfold ranks_before.
        destruct (Qlt_le_dec (score y) (score x)) as [L | L];
          [left; exact L | right; split; [lra | exact Hxy]]. }
      constructor; [exact Rxy |].
      rewrite Forall_forall in Hy, Hx' |- *. intros z Hz.
      specialize (Hy z Hz). specialize (Hx' z Hz).
      unfold ranks_before in *.
      destruct Rxy as [L | [L _]], Hy as [L' | [L' _]];
        try (left; lra); right; split; [lra | lia].
    + apply Qle_bool_false in E. constructor; [apply IH; assumption |].
      apply (Permutation_Forall (x := x :: s)).
      * symmetry. apply insert_desc_perm.
      * constructor; [left; exact E | exact Hy].
Qed.

Lemma stable_sort_desc_ranked (l : list ScoredIndex) :
  encounter_order l -> StronglySorted ranks_before (stable_sort_desc l).
Proof.
  induction l as [| x l IH]; intros Hl; simpl.
  - constructor.
  - inversion Hl as [| ? ? Hl' Hx]; subst.
    apply insert_desc_ranked; [apply IH; exact Hl' |].
    apply (Permutation_Forall (x := l)); [| exact Hx].
    symmetry. apply stable_sort_desc_perm.
Qed.

(** * Enumerated scores and truncated sorted lists *)

Lemma enumerate_from_app (offset : nat) (s1 s2 : list Q) :
  enumerate_from offset (s1 ++ s2)
  = enumerate_from offset s1 ++ enumerate_from (offset + length s1) s2.
Proof.
  unfold enumerate_from. revert offset.
  induction s1 as [| q s1 IH]; intros offset; simpl.
  - rewrite Nat.add_0_r. reflexivity.
  - rewrite IH. rewrite Nat.add_succ_r. reflexivity.
Qed.

Lemma map_index_enumerate (offset : nat) (s : list Q) :
  map index (enumerate_from offset s) = seq offset (length s).
Proof.
  unfold enumerate_from. revert offset.
  induction s as [| q s IH]; intros offset; simpl; [| rewrite IH]; reflexivity.
Qed.

Lemma length_enumerate (offset : nat) (s : list Q) :
  length (enumerate_from offset s) = length s.
Proof.
  rewrite <- (length_map index), map_index_enumerate. apply length_seq.
Qed.

Lemma enumerate_in_order (s : list Q) :
  forall offset : nat, encounter_order (enumerate_from offset s).
Proof.
  unfold encounter_order.
  induction s as [| q s IH]; intros offset.
  - constructor.
  - change (enumerate_from offset (q :: s))
      with ((offset, q) :: enumerate_from (S offset) s).
    constructor; [apply IH |].
    rewrite Forall_forall. intros e He.
    apply (in_map index) in He. rewrite map_index_enumerate in He.
    apply in_seq in He. simpl. lia.
Qed.

Lemma combine_index_score (l : list ScoredIndex) :
  combine (map index l) (map score l) = l.
Proof.
  induction l as [| [i q] l IH]; simpl; [| rewrite IH]; reflexivity.
Qed.

Section Sorted.

Context {A : Type} (R : A -> A -> Prop).

Lemma StronglySorted_firstn (k : nat) :
  forall l : list A, StronglySorted R l -> StronglySorted R (firstn k l).
Proof.
  induction k as [| k IH]; intros l Hl; simpl.
  - constructor.
  - destruct l as [| a l]; [constructor |].
    inversion Hl as [| ? ? Hl' Ha]; subst.
    constructor; [apply IH; exact Hl' |].
    rewrite Forall_forall in Ha |- *. intros b Hb.
    apply Ha. rewrite <- (firstn_skipn k l). apply in_or_app. left. exact Hb.
Qed.

Lemma StronglySorted_nth (l : list A) :
  StronglySorted R l ->
  forall (i j : nat) (a b : A),
    i < j -> nth_error l i = Some a -> nth_error l j = Some b -> R a b.
Proof.
  induction 1 as [| x l Hl IH Hx]; intros i j a b Hij Hi Hj.
  - destruct i; discriminate.
  - destruct j as [| j]; [lia |]. simpl in Hj.
    destruct i as [| i]; simpl in Hi.
    + injection Hi as <-. rewrite Forall_forall in Hx.
      apply Hx. eapply nth_error_In. exact Hj.
    + apply (IH i j); [lia | assumption | assumption].
Qed.

(** Everything kept is related to everything cut off. *)
Lemma StronglySorted_cut (k : nat) :
  forall l : list A,
    StronglySorted R l ->
    forall a b : A, In a (firstn k l) -> In b (skipn k l) -> R a b.
Proof.
  induction k as [| k IH]; intros l Hl a b Ha Hb; simpl in *.
  - contradiction.
  - destruct l as [| x l]; [contradiction |].
    inversion Hl as [| ? ? Hl' Hx]; subst.
    destruct Ha as [<- | Ha].
    + rewrite Forall_forall in Hx. apply Hx.
      rewrite <- (firstn_skipn k l). apply in_or_app. right. exact Hb.
    + apply (IH l); assumption.
Qed.

End Sorted.

Lemma NoDup_firstn {A : Type} (k : nat) (l : list A) :
  NoDup l -> NoDup (firstn k l).
Proof.
  intros Hl. rewrite <- (firstn_skipn k l) in Hl.
  apply NoDup_app_remove_r in Hl. exact Hl.
Qed.

Lemma ranks_before_score (a b : ScoredIndex) :
  ranks_before a b -> (score b <= score a)%Q.
Proof. unfold ranks_before. intros [L | [L _]]; lra. Qed.

(** ** The selection over an enumerated pool *)

Section Selection.

Variable k : nat.
Variable scores : list Q.

Let all : list ScoredIndex := enumerate_from 0 scores.
Let sel : list ScoredIndex := sort_then_truncate k all.

Lemma selection_ranked : StronglySorted ranks_before sel.
Proof.
  apply StronglySorted_firstn, stable_sort_desc_ranked, enumerate_in_order.
Qed.

Lemma selection_indices :
  map index sel = firstn k (map index (stable_sort_desc all)).
Proof. unfold sel, sort_then_truncate. symmetry. apply firstn_map. Qed.

Lemma sorted_indices_perm :
  Permutation (map index (stable_sort_desc all)) (seq 0 (length scores)).
Proof.
  unfold all. rewrite <- (map_index_enumerate 0 scores).
  apply Permutation_map, stable_sort_desc_perm.
Qed.

Lemma selection_shape :
  ranking_shape k (length scores) (map index sel) (map score sel).
Proof.
  unfold ranking_shape. repeat split.
  - rewrite length_map. unfold sel, sort_then_truncate.
    rewrite length_firstn.
    rewrite (Permutation_length (stable_sort_desc_perm all)).
    unfold all. rewrite length_enumerate. reflexivity.
  - rewrite !length_map. reflexivity.
  - rewrite selection_indices. apply NoDup_firstn.
    apply (Permutation_NoDup (l := seq 0 (length scores))).
    + symmetry. apply sorted_indices_perm.
    + apply seq_NoDup.
  - rewrite Forall_forall. intros i Hi.
    rewrite selection_indices in Hi.
    assert (Hi' : In i (map index (stable_sort_desc all))).
    { rewrite <- (firstn_skipn k (map index (stable_sort_desc all))).
      apply in_or_app. left. exact Hi. }
    apply (Permutation_in _ sorted_indices_perm) in Hi'.
    apply in_seq in Hi'. lia.
Qed.

(** Every entry that is not selected has a score no greater than that of
    any selected entry. *)
Lemma selection_dominates (a b : ScoredIndex) :
  In a sel -> In b all -> ~ In b sel -> (score b <= score a)%Q.
Proof.
  intros Ha Hb Hnb. apply ranks_before_score.
  apply (StronglySorted_cut ranks_before k (stable_sort_desc all)).
  - apply stable_sort_desc_ranked, enumerate_in_order.
  - exact Ha.
  - apply (Permutation_in _ (Permutation_sym (stable_sort_desc_perm all))) in Hb.
    rewrite <- (firstn_skipn k (stable_sort_desc all)) in Hb.
    apply in_app_or in Hb. destruct Hb as [Hb | Hb]; [| exact Hb].
    contradiction.
Qed.

End Selection.

(** * Computations that leave the data module alone *)

Lemma frame_ret {A : Type} (a : A) : frame (ret a).
Proof. intros w. reflexivity. Qed.

Lemma frame_raise {A : Type} (e : Exception) : frame (@raise A e).
Proof. intros w. reflexivity. Qed.

Lemma frame_lift {A : Type} (r : Result A) : frame (lift r).
Proof. intros w. reflexivity. Qed.

Lemma frame_tell (ev : Event) : frame (tell ev).
Proof. intros w. reflexivity. Qed.

Lemma frame_get_datamodule : frame get_datamodule.
Proof. intros w. reflexivity. Qed.

Lemma frame_bind {A B : Type} (c : M A) (f : A -> M B) :
  frame c -> (forall a : A, frame (f a)) -> frame (bind c f).
Proof.
  intros Hc Hf w. unfold bind. specialize (Hc w).
  destruct (c w) as [[a | e] w1]; simpl in *.
  - rewrite Hf. exact Hc.
  - exact Hc.
Qed.

Lemma frame_try_except {A : Type} (body handler : M A) :
  frame body -> frame handler -> frame (try_except body handler).
Proof.
  intros Hb Hh w. unfold try_except. specialize (Hb w).
  destruct (body w) as [[a | e] w1]; simpl in *.
  - exact Hb.
  - rewrite Hh. exact Hb.
Qed.

Create HintDb frame.
#[global] Hint Resolve frame_ret frame_raise frame_lift frame_tell
  frame_get_datamodule frame_try_except : frame.

(** Goes through a straight-line computation, one [bind] at a time. *)
Ltac frame_steps :=
  repeat first
    [ progress auto with frame
    | apply frame_bind; [| intros ? ]
    | match goal with
      | |- frame (match ?x with _ => _ end) => destruct x
      | |- frame (let _ := _ in _) => cbv zeta
      end ].

Section Theory.

Context `{Imports}.

Lemma frame_forward_passes (m n : nat) : frame (forward_passes m n).
Proof. induction m as [| m IH]; simpl; frame_steps. Qed.

#[local] Hint Resolve frame_forward_passes : frame.

Lemma frame_scan_pool acq post (m k : nat) (batches : Loader) :
  forall (offset : nat) (topk : list ScoredIndex),
    frame (scan_pool acq post m k batches offset topk).
Proof.
  induction batches as [| b rest IH]; intros offset topk; simpl;
    unfold score_batch; frame_steps.
Qed.

#[local] Hint Resolve frame_scan_pool : frame.

Lemma frame_query_uncertainty_query_sampler pl acq post (k : nat) (device : string) :
  frame (query_uncertainty_query_sampler pl acq post k device).
Proof.
  unfold query_uncertainty_query_sampler. frame_steps.
Qed.

#[local] Hint Resolve frame_query_uncertainty_query_sampler : frame.

Lemma frame_ranking_step (self : QuerySampler) pl ll :
  frame (ranking_step self pl ll).
Proof.
  unfold ranking_step. cbv zeta.
  destruct (contains _ query_uncertainty_names); [frame_steps |].
  destruct (contains _ query_diversity_names); frame_steps.
Qed.

#[local] Hint Resolve frame_ranking_step : frame.

Lemma frame_query_samples (self : QuerySampler) : frame (query_samples self).
Proof. unfold query_samples. frame_steps. Qed.

Lemma frame_getitem pool (ind : nat) : frame (getitem pool ind).
Proof. unfold getitem. destruct (nth_error pool ind); frame_steps. Qed.

#[local] Hint Resolve frame_query_samples frame_getitem : frame.

Lemma frame_obtain_loop pool (indices : list nat) :
  forall data labels, frame (obtain_loop pool indices data labels).
Proof.
  induction indices as [| ind rest IH]; intros data labels; simpl; frame_steps.
Qed.

Lemma frame_torch_stack (data : list Tensor) : frame (torch_stack data).
Proof.
  unfold torch_stack. destruct data; [frame_steps |].
  destruct (forallb _ _); frame_steps.
Qed.

Lemma frame_torch_tensor_int (labels : list Z) : frame (torch_tensor_int labels).
Proof. unfold torch_tensor_int. destruct (forallb _ _); frame_steps. Qed.

#[local] Hint Resolve frame_obtain_loop frame_torch_stack frame_torch_tensor_int
  : frame.

Lemma frame_obtain_data_from_pool pool (indices : list nat) :
  frame (obtain_data_from_pool pool indices).
Proof. unfold obtain_data_from_pool. frame_steps. Qed.

Lemma frame_argmax_dim1 (out : list (list Q)) : frame (argmax_dim1 out).
Proof.
  induction out as [| row rows IH]; simpl; [frame_steps |].
  destruct (argmax row); frame_steps.
Qed.

#[local] Hint Resolve frame_obtain_data_from_pool frame_argmax_dim1 : frame.

Lemma frame_evaluate_loop (model : Model) (dataloader : EvalLoader) :
  forall correct counts, frame (evaluate_loop model dataloader correct counts).
Proof.
  induction dataloader as [| b rest IH]; intros correct counts; simpl;
    frame_steps.
Qed.

Lemma frame_true_div (correct counts : nat) : frame (true_div correct counts).
Proof. unfold true_div. destruct counts; frame_steps. Qed.

#[local] Hint Resolve frame_evaluate_loop frame_true_div : frame.

Lemma frame_evaluate_accuracy (model : Model) dataloader (device : string) :
  frame (evaluate_accuracy model dataloader device).
Proof.
  unfold evaluate_accuracy. destruct dataloader as [batches |]; frame_steps.
Qed.

Lemma frame_vis_callback n acq_labels acq_data acq_vals classes count :
  frame (vis_callback n acq_labels acq_data acq_vals classes count).
Proof. unfold vis_callback, savefig. frame_steps. Qed.

#[local] Hint Resolve frame_evaluate_accuracy frame_vis_callback : frame.

Lemma frame_active_callback (self : QuerySampler) (vis : bool) :
  frame (active_callback self vis).
Proof. unfold active_callback. destruct vis; frame_steps. Qed.

(** * The uncertainty sampler, run *)

Lemma forward_passes_ok (m n : nat) :
  forall w : World, exists w', forward_passes m n w = (Ok tt, w').
Proof.
  induction m as [| m IH]; intros w; simpl.
  - eexists. reflexivity.
  - unfold bind, tell. apply IH.
Qed.

Lemma scan_pool_ok acq post (m k : nat) (batches : Loader) :
  forall (offset : nat) (topk : list ScoredIndex) (w : World),
  exists w',
    scan_pool acq post m k batches offset topk w
    = (Ok (offset + length (concat batches),
           fold_left (push k)
             (enumerate_from offset (map (sample_score acq post m) (concat batches)))
             topk),
       w').
Proof.
  induction batches as [| b rest IH]; intros offset topk w; simpl.
  - exists w. rewrite Nat.add_0_r. reflexivity.
  - unfold bind at 1. unfold score_batch, bind at 1.
    destruct (forward_passes_ok m (length b) w) as [w1 ->]. unfold ret at 1.
    destruct (IH (offset + length (map (sample_score acq post m) b))
                (fold_left (push k)
                   (enumerate_from offset (map (sample_score acq post m) b)) topk)
                w1) as [w2 ->].
    exists w2. do 3 f_equal.
    + rewrite length_map, length_app. lia.
    + rewrite map_app, enumerate_from_app, fold_left_app. reflexivity.
Qed.

Lemma query_uncertainty_query_sampler_run pl acq post (k : nat) (device : string)
    (w : World) :
  fst (query_uncertainty_query_sampler pl acq post k device w)
  = if Nat.eqb (pool_size pl) 0 then Raise EmptyPool
    else Ok (map index
               (sort_then_truncate k
                  (enumerate_from 0
                     (map (sample_score acq post (loader_m pl))
                        (concat (loader_batches pl))))),
             map score
               (sort_then_truncate k
                  (enumerate_from 0
                     (map (sample_score acq post (loader_m pl))
                        (concat (loader_batches pl)))))).
Proof.
  unfold query_uncertainty_query_sampler, bind.
  destruct (scan_pool_ok acq post (loader_m pl) k (loader_batches pl) 0 [] w)
    as [w1 ->].
  rewrite running_selection_sorts. unfold pool_size. simpl.
  destruct (Nat.eqb _ 0); reflexivity.
Qed.

(** ** Which branch [ranking_step] takes *)

Lemma resolve_uncertainty (name : string) :
  resolve name = Some Uncertainty <->
  contains (strategy_prefix name) query_uncertainty_names = true.
Proof.
  unfold resolve.
  destruct (contains _ query_uncertainty_names);
    [| destruct (contains _ query_diversity_names)];
    intuition congruence.
Qed.

Lemma resolve_diversity (name : string) :
  resolve name = Some Diversity <->
  contains (strategy_prefix name) query_uncertainty_names = false /\
  contains (strategy_prefix name) query_diversity_names = true.
Proof.
  unfold resolve.
  destruct (contains _ query_uncertainty_names);
    [| destruct (contains _ query_diversity_names)];
    intuition congruence.
Qed.

Lemma resolve_none (name : string) :
  resolve name = None <->
  contains (strategy_prefix name) query_uncertainty_names = false /\
  contains (strategy_prefix name) query_diversity_names = false.
Proof.
  unfold resolve.
  destruct (contains _ query_uncertainty_names);
    [| destruct (contains _ query_diversity_names)];
    intuition congruence.
Qed.

Lemma ranking_step_uncertainty (self : QuerySampler) pl ll (w : World) :
  resolve (self_acq_method self) = Some Uncertainty ->
  fst (ranking_step self pl ll w)
  = if Nat.eqb (pool_size pl) 0 then Raise EmptyPool
    else Ok (map index (sort_then_truncate (self_acq_size self)
                          (enumerate_from 0 (pool_scores self pl))),
             map score (sort_then_truncate (self_acq_size self)
                          (enumerate_from 0 (pool_scores self pl)))).
Proof.
  intros Hr. apply resolve_uncertainty in Hr.
  unfold ranking_step. rewrite Hr. cbv zeta.
  apply query_uncertainty_query_sampler_run.
Qed.

Lemma ranking_step_diversity (self : QuerySampler) pl ll (w : World) :
  resolve (self_acq_method self) = Some Diversity ->
  fst (ranking_step self pl ll w)
  = query_diversity_query_sampler (self_cfg self) (self_model self) ll pl
      (self_acq_size self).
Proof.
  intros Hr. apply resolve_diversity in Hr. destruct Hr as [Hu Hd].
  unfold ranking_step. rewrite Hu, Hd. reflexivity.
Qed.

Lemma pool_scores_length (self : QuerySampler) pl :
  length (pool_scores self pl) = pool_size pl.
Proof. unfold pool_scores, pool_size. apply length_map. Qed.

(** The outcome of a round whose policy is available: a result of the right
    shape on a non-empty pool, [EmptyPool] on an empty one. *)
Lemma ranking_step_outcome (self : QuerySampler) pl ll (w : World) :
  policy_available self pl ll ->
  match fst (ranking_step self pl ll w) with
  | Ok (inds, vals) =>
      0 < pool_size pl /\
      ranking_shape (self_acq_size self) (pool_size pl) inds vals
  | Raise e => pool_size pl = 0 /\ e = EmptyPool
  end.
Proof.
  intros [Hu | [Hd Hc]].
  - rewrite (ranking_step_uncertainty self pl ll w Hu).
    destruct (Nat.eqb (pool_size pl) 0) eqn:E.
    + apply Nat.eqb_eq in E. split; [exact E | reflexivity].
    + apply Nat.eqb_neq in E. split; [lia |].
      rewrite <- (pool_scores_length self pl). apply selection_shape.
  - rewrite (ranking_step_diversity self pl ll w Hd). exact Hc.
Qed.

(** * Ranking rounds *)

(** C1. A completed ranking round returns exactly [min(acq_size, P)]
    entries for a pool of size [P], with pairwise distinct pool-local
    indices below [P]; when [acq_size] is not below [P] these are all the
    indices of the pool; and a round over a non-empty pool does complete,
    also when [acq_size] exceeds [P].  The round runs the uncertainty
    policy, or the diversity policy with a sampler that keeps its call
    contract. *)
Theorem ranking_step_selection_size (self : QuerySampler)
    (pool_loader : PoolLoader) (labeled_loader : Loader) (w : World) :
  policy_available self pool_loader labeled_loader ->
  (forall (inds : list nat) (vals : list Q),
     fst (ranking_step self pool_loader labeled_loader w) = Ok (inds, vals) ->
     length inds = Nat.min (self_acq_size self) (pool_size pool_loader) /\
     length vals = length inds /\
     NoDup inds /\
     Forall (fun i => i < pool_size pool_loader) inds /\
     (pool_size pool_loader <= self_acq_size self ->
      Permutation inds (seq 0 (pool_size pool_loader)))) /\
  (0 < pool_size pool_loader ->
   exists (inds : list nat) (vals : list Q),
     fst (ranking_step self pool_loader labeled_loader w) = Ok (inds, vals)).
Proof.
  intros Hp.
  pose proof (ranking_step_outcome self pool_loader labeled_loader w Hp) as Ho.
  split.
  - intros inds vals Hr. rewrite Hr in Ho.
    destruct Ho as [_ (Hlen & Hvals & Hnd & Hlt)].
    repeat split; try assumption.
    intros Hk. apply NoDup_Permutation_bis.
    + exact Hnd.
    + rewrite length_seq, Hlen. lia.
    + intros i Hi. rewrite Forall_forall in Hlt.
      apply in_seq. specialize (Hlt i Hi). lia.
  - intros Hpos.
    destruct (fst (ranking_step self pool_loader labeled_loader w))
      as [[inds vals] | e].
    + exists inds, vals. reflexivity.
    + destruct Ho as [Hz _]. lia.
Qed.

(** C2. Under the uncertainty policy the selection of a ranking round is the
    stable descending sort of all (index, score) pairs of the pool,
    truncated to [acq_size]: it is sorted descending by score, every
    selected score is at least every unselected score, and of two selected
    entries with equal scores the one with the lower encounter index comes
    first. *)
Theorem ranking_step_stable_topk (self : QuerySampler)
    (pool_loader : PoolLoader) (labeled_loader : Loader) (w : World)
    (inds : list nat) (vals : list Q) :
  resolve (self_acq_method self) = Some Uncertainty ->
  fst (ranking_step self pool_loader labeled_loader w) = Ok (inds, vals) ->
  let all := enumerate_from 0 (pool_scores self pool_loader) in
  let sel := combine inds vals in
  inds = map index sel /\
  vals = map score sel /\
  sel = sort_then_truncate (self_acq_size self) all /\
  StronglySorted (fun a b => (score b <= score a)%Q) sel /\
  (forall a b : ScoredIndex,
     In a sel -> In b all -> ~ In b sel -> (score b <= score a)%Q) /\
  (forall (i j : nat) (a b : ScoredIndex),
     i < j -> nth_error sel i = Some a -> nth_error sel j = Some b ->
     (score a == score b)%Q -> index a < index b).
Proof.
  intros Hu Hr all sel.
  rewrite (ranking_step_uncertainty self pool_loader labeled_loader w Hu) in Hr.
  destruct (Nat.eqb (pool_size pool_loader) 0); [discriminate |].
  injection Hr as Hinds Hvals.
  assert (Hsel : sel = sort_then_truncate (self_acq_size self) all).
  { unfold sel. rewrite <- Hinds, <- Hvals. apply combine_index_score. }
  pose proof (selection_ranked (self_acq_size self) (pool_scores self pool_loader))
    as Hrk.
  cbv zeta in Hrk. fold all in Hrk. rewrite <- Hsel in Hrk.
  repeat split.
  - rewrite Hsel. symmetry. exact Hinds.
  - rewrite Hsel. symmetry. exact Hvals.
  - exact Hsel.
  - clear - Hrk. induction Hrk as [| a l Hl IH Ha]; constructor.
    + exact IH.
    + rewrite Forall_forall in Ha |- *. intros b Hb.
      apply ranks_before_score, Ha, Hb.
  - intros a b Ha Hb Hnb. rewrite Hsel in Ha, Hnb.
    apply (selection_dominates (self_acq_size self)
             (pool_scores self pool_loader) a b Ha Hb Hnb).
  - intros i j a b Hij Hi Hj Heq.
    pose proof (StronglySorted_nth ranks_before sel Hrk i j a b Hij Hi Hj) as Hab.
    destruct Hab as [L | [_ L]]; [| exact L]. lra.
Qed.

(** ** [query_samples] and [active_callback] on top of the round *)

Lemma query_samples_run (self : QuerySampler) (w : World) :
  fst (query_samples self w)
  = match fst (ranking_step self (current_pool_loader self w)
                 (current_labeled_loader w) w) with
    | Ok (inds, vals) => Ok (get_pool_indices (datamodule w) inds, vals)
    | Raise e => Raise e
    end.
Proof.
  unfold query_samples, bind, get_datamodule, current_pool_loader,
    current_labeled_loader. cbv zeta.
  pose proof (frame_ranking_step self
                (pool_dataloader (datamodule w) (batch_size (datamodule w))
                   (self_m self))
                (labeled_dataloader (datamodule w) (batch_size (datamodule w)))
                w) as Hf.
  destruct (ranking_step self _ _ w) as [[[inds vals] | e] w1]; simpl in *.
  - rewrite Hf. reflexivity.
  - reflexivity.
Qed.

Lemma active_callback_aborts (self : QuerySampler) (vis : bool) (w : World)
    (e : Exception) :
  fst (query_samples self w) = Raise e ->
  fst (active_callback self vis w) = Raise e.
Proof.
  intros Hq. unfold active_callback, bind at 1.
  destruct (query_samples self w) as [[[inds vals] | e'] w1]; simpl in *.
  - discriminate.
  - injection Hq as ->. reflexivity.
Qed.

(** C6. A ranking round against a pool of size 0 raises [EmptyPool]: no
    ranking result is produced, and neither [query_samples] nor
    [active_callback] returns for that round. *)
Theorem empty_pool_aborts_round (self : QuerySampler)
    (pool_loader : PoolLoader) (labeled_loader : Loader) (w : World) :
  policy_available self pool_loader labeled_loader ->
  pool_size pool_loader = 0 ->
  fst (ranking_step self pool_loader labeled_loader w) = Raise EmptyPool /\
  (pool_loader = current_pool_loader self w ->
   labeled_loader = current_labeled_loader w ->
   fst (query_samples self w) = Raise EmptyPool /\
   forall vis : bool, fst (active_callback self vis w) = Raise EmptyPool).
Proof.
  intros Hp Hz.
  assert (Hr : fst (ranking_step self pool_loader labeled_loader w)
               = Raise EmptyPool).
  { pose proof (ranking_step_outcome self pool_loader labeled_loader w Hp) as Ho.
    destruct (fst (ranking_step self pool_loader labeled_loader w))
      as [[inds vals] | e].
    - destruct Ho as [Hpos _]. lia.
    - destruct Ho as [_ ->]. reflexivity. }
  split; [exact Hr |].
  intros -> ->.
  assert (Hq : fst (query_samples self w) = Raise EmptyPool).
  { rewrite query_samples_run, Hr. reflexivity. }
  split; [exact Hq |].
  intros vis. apply active_callback_aborts. exact Hq.
Qed.

Lemma contains_In (x : string) (names : list string) :
  contains x names = true <-> In x names.
Proof.
  unfold contains. rewrite existsb_exists. split.
  - intros [y [Hy E]]. apply String.eqb_eq in E. subst. exact Hy.
  - intros Hx. exists x. split; [exact Hx | apply String.eqb_refl].
Qed.

Lemma not_contains (x : string) (names : list string) :
  ~ In x names -> contains x names = false.
Proof.
  intros Hn. destruct (contains x names) eqn:E; [| reflexivity].
  apply contains_In in E. contradiction.
Qed.

(** C5. When the prefix of the strategy name is in neither name set,
    [ranking_step] raises [NotImplementedError], the source's
    unsupported-strategy error, with nothing done before: the world, log of
    scoring events included, is as it was; [query_samples] and
    [active_callback] raise the same error and return nothing. *)
Theorem unsupported_strategy_aborts (self : QuerySampler) (w : World) :
  ~ In (strategy_prefix (self_acq_method self)) query_uncertainty_names ->
  ~ In (strategy_prefix (self_acq_method self)) query_diversity_names ->
  (forall (pool_loader : PoolLoader) (labeled_loader : Loader),
     ranking_step self pool_loader labeled_loader w
     = (Raise NotImplementedError, w)) /\
  query_samples self w = (Raise NotImplementedError, w) /\
  (forall vis : bool, active_callback self vis w = (Raise NotImplementedError, w)).
Proof.
  intros Hu Hd. apply not_contains in Hu. apply not_contains in Hd.
  assert (Hr : forall pl ll,
             ranking_step self pl ll w = (Raise NotImplementedError, w)).
  { intros pl ll. unfold ranking_step. rewrite Hu, Hd. reflexivity. }
  assert (Hq : query_samples self w = (Raise NotImplementedError, w)).
  { unfold query_samples, bind, get_datamodule. cbv zeta. rewrite Hr.
    reflexivity. }
  repeat split.
  - exact Hr.
  - exact Hq.
  - intros vis. unfold active_callback, bind at 1. rewrite Hq. reflexivity.
Qed.

(** C3. [query_samples] returns the indices of the ranking step translated
    by the data module, one for one and in the same order, next to the
    scores of the ranking step as they are; an error of the ranking step is
    passed on. *)
Theorem query_samples_translates (self : QuerySampler) (w : World) :
  fst (query_samples self w)
  = match fst (ranking_step self (current_pool_loader self w)
                 (current_labeled_loader w) w) with
    | Ok (inds, vals) => Ok (get_pool_indices (datamodule w) inds, vals)
    | Raise e => Raise e
    end /\
  (forall inds : list nat,
     length (get_pool_indices (datamodule w) inds) = length inds /\
     forall i : nat,
       nth_error (get_pool_indices (datamodule w) inds) i
       = option_map (pool_index_map (datamodule w)) (nth_error inds i)).
Proof.
  split; [apply query_samples_run |].
  intros inds. unfold get_pool_indices. split.
  - apply length_map.
  - intros i. apply nth_error_map.
Qed.

(** * Reading the acquired samples *)

Lemma obtain_loop_run pool (indices : list nat) :
  forall (data : list Tensor) (labels : list Z) (w : World),
    obtain_loop pool indices data labels w
    = match lookup_all pool indices with
      | Some samples =>
          (Ok (data ++ map fst samples, labels ++ map snd samples), w)
      | None => (Raise IndexError, w)
      end.
Proof.
  induction indices as [| ind rest IH]; intros data labels w; simpl.
  - rewrite !app_nil_r. reflexivity.
  - unfold bind, getitem. destruct (nth_error pool ind) as [sample |]; simpl.
    + rewrite IH. destruct (lookup_all pool rest) as [samples |].
      * simpl. rewrite <- !app_assoc. reflexivity.
      * reflexivity.
    + reflexivity.
Qed.

Lemma lookup_all_nth pool (indices : list nat) :
  forall samples : list (Tensor * Z),
    lookup_all pool indices = Some samples ->
    length samples = length indices /\
    forall (i ind : nat),
      nth_error indices i = Some ind ->
      exists sample : Tensor * Z,
        nth_error pool ind = Some sample /\ nth_error samples i = Some sample.
Proof.
  induction indices as [| ind0 rest IH]; intros samples Hl; simpl in Hl.
  - injection Hl as <-. split; [reflexivity |].
    intros i ind Hi. destruct i; discriminate.
  - destruct (nth_error pool ind0) as [sample0 |] eqn:E0; [| discriminate].
    destruct (lookup_all pool rest) as [samples' |]; [| discriminate].
    injection Hl as <-. destruct (IH samples' eq_refl) as [Hlen Hnth].
    split; [simpl; f_equal; exact Hlen |].
    intros [| i] ind Hi; simpl in Hi.
    + injection Hi as <-. exists sample0. split; [exact E0 | reflexivity].
    + apply Hnth. exact Hi.
Qed.

(** A successful [obtain_data_from_pool] returns the inputs and the labels
    of the samples looked up, in the order of the indices. *)
Lemma obtain_data_from_pool_inv pool (indices : list nat) (w : World)
    (data : list Tensor) (labels : list Z) :
  fst (obtain_data_from_pool pool indices w) = Ok (data, labels) ->
  exists samples : list (Tensor * Z),
    lookup_all pool indices = Some samples /\
    data = map fst samples /\ labels = map snd samples.
Proof.
  unfold obtain_data_from_pool, bind. rewrite obtain_loop_run.
  destruct (lookup_all pool indices) as [samples |]; [| discriminate].
  simpl. unfold torch_stack.
  destruct (map fst samples) as [| t ts] eqn:Ed; [discriminate |].
  destruct (forallb _ ts); [| discriminate].
  unfold ret at 1. unfold torch_tensor_int.
  destruct (forallb fits_int32 (map snd samples)); [| discriminate].
  simpl. intros Hr. injection Hr as <- <-.
  exists samples. rewrite Ed. repeat split.
Qed.

(** It does return when there is at least one index, every index is in
    range, the inputs have one shape and the labels fit [torch.int]. *)
Lemma obtain_data_from_pool_returns pool (indices : list nat) (w : World)
    (samples : list (Tensor * Z)) :
  indices <> [] ->
  lookup_all pool indices = Some samples ->
  (forall s s', In s samples -> In s' samples -> shape (fst s) = shape (fst s')) ->
  Forall (fun s => fits_int32 (snd s) = true) samples ->
  obtain_data_from_pool pool indices w
  = (Ok (map fst samples, map snd samples), w).
Proof.
  intros Hne Hl Hshape Hfit.
  unfold obtain_data_from_pool, bind. rewrite obtain_loop_run, Hl. simpl.
  destruct samples as [| s0 samples'].
  - destruct indices as [| ind rest]; [contradiction |].
    simpl in Hl. destruct (nth_error pool ind); [| discriminate].
    destruct (lookup_all pool rest); discriminate.
  - simpl.
    assert (Hs : forallb (fun u => shape_eqb (shape u) (shape (fst s0)))
                   (map fst samples') = true).
    { apply forallb_forall. intros u Hu. apply in_map_iff in Hu.
      destruct Hu as [s [<- Hs]]. unfold shape_eqb.
      destruct (list_eq_dec Nat.eq_dec (shape (fst s)) (shape (fst s0)))
        as [_ | Hn]; [reflexivity |].
      exfalso. apply Hn. apply Hshape; simpl; auto. }
    rewrite Hs. unfold ret at 1. unfold torch_tensor_int.
    assert (Hf : forallb fits_int32 (map snd (s0 :: samples')) = true).
    { apply forallb_forall. intros z Hz. apply in_map_iff in Hz.
      destruct Hz as [s [<- Hs']]. rewrite Forall_forall in Hfit.
      apply Hfit. exact Hs'. }
    change (map snd (s0 :: samples')) with (snd s0 :: map snd samples') in Hf.
    rewrite Hf. reflexivity.
Qed.

(** ** What a returned [ActiveStore] is made of *)

Lemma bind_fst_ext {A B : Type} (c : M A) (f g : A -> M B) (w : World) :
  (forall (a : A) (w' : World), fst (f a w') = fst (g a w')) ->
  fst (bind c f w) = fst (bind c g w).
Proof.
  intros Hfg. unfold bind. destruct (c w) as [[a | e] w1]; [apply Hfg | reflexivity].
Qed.

Lemma bind_ok_inv {A B : Type} (c : M A) (f : A -> M B) (w : World) (b : B) :
  fst (bind c f w) = Ok b ->
  exists (a : A) (w1 : World), c w = (Ok a, w1) /\ fst (f a w1) = Ok b.
Proof.
  unfold bind. destruct (c w) as [[a | e] w1]; [| discriminate].
  intros Hb. exists a, w1. split; [reflexivity | exact Hb].
Qed.

Lemma active_callback_inv (self : QuerySampler) (vis : bool) (w : World)
    (store : storing.ActiveStore) :
  fst (active_callback self vis w) = Ok store ->
  exists (acq_vals : list Q) (w1 : World) (acq_data : list Tensor),
    query_samples self w = (Ok (storing.requests store, acq_vals), w1) /\
    fst (obtain_data_from_pool (pool (train_set (datamodule w)))
           (storing.requests store) w1)
    = Ok (acq_data, storing.labels store) /\
    storing.n_labelled store = n_labelled (train_set (datamodule w)).
Proof.
  intros Hs. unfold active_callback in Hs.
  apply bind_ok_inv in Hs. destruct Hs as ([inds vals] & w1 & Hq & Hs).
  pose proof (frame_query_samples self w) as F1. rewrite Hq in F1. simpl in F1.
  apply bind_ok_inv in Hs. destruct Hs as (dm1 & w1' & Hg & Hs).
  injection Hg as <- <-.
  apply bind_ok_inv in Hs. destruct Hs as ([data labels] & w2 & Ho & Hs).
  apply bind_ok_inv in Hs. destruct Hs as (dm2 & w2' & Hg & Hs).
  injection Hg as <- <-.
  pose proof (frame_obtain_data_from_pool (pool (train_set (datamodule w1)))
                inds w1) as F2.
  rewrite Ho in F2. simpl in F2.
  apply bind_ok_inv in Hs. destruct Hs as (dm3 & w3 & _ & Hs).
  apply bind_ok_inv in Hs. destruct Hs as (acc_val & w4 & _ & Hs).
  apply bind_ok_inv in Hs. destruct Hs as (dm4 & w5 & _ & Hs).
  apply bind_ok_inv in Hs. destruct Hs as (acc_test & w6 & _ & Hs).
  apply bind_ok_inv in Hs. destruct Hs as (u & w7 & _ & Hs).
  simpl in Hs. injection Hs as <-. simpl.
  exists vals, w1, data. rewrite F1 in *. rewrite Ho. simpl.
  repeat split; [exact Hq | rewrite F2; reflexivity].
Qed.

(** C10. The data and labels returned by [obtain_data_from_pool] are aligned
    with the indices given: position [i] holds the input and the label of
    [pool[indices[i]]]; hence in a returned [ActiveStore] the label at
    position [i] is the label of the pool sample that the request at
    position [i] names. *)
Theorem labels_aligned_with_requests :
  (forall (pool : list (Tensor * Z)) (indices : list nat) (w : World)
          (data : list Tensor) (labels : list Z),
     fst (obtain_data_from_pool pool indices w) = Ok (data, labels) ->
     length data = length indices /\
     length labels = length indices /\
     forall (i ind : nat),
       nth_error indices i = Some ind ->
       exists (x : Tensor) (y : Z),
         nth_error pool ind = Some (x, y) /\
         nth_error data i = Some x /\
         nth_error labels i = Some y) /\
  (forall (self : QuerySampler) (vis : bool) (w : World)
          (store : storing.ActiveStore),
     fst (active_callback self vis w) = Ok store ->
     length (storing.labels store) = length (storing.requests store) /\
     forall (i request : nat),
       nth_error (storing.requests store) i = Some request ->
       exists (x : Tensor) (y : Z),
         nth_error (pool (train_set (datamodule w))) request = Some (x, y) /\
         nth_error (storing.labels store) i = Some y).
Proof.
  assert (Hobtain :
    forall (pool : list (Tensor * Z)) (indices : list nat) (w : World)
           (data : list Tensor) (labels : list Z),
      fst (obtain_data_from_pool pool indices w) = Ok (data, labels) ->
      length data = length indices /\
      length labels = length indices /\
      forall (i ind : nat),
        nth_error indices i = Some ind ->
        exists (x : Tensor) (y : Z),
          nth_error pool ind = Some (x, y) /\
          nth_error data i = Some x /\
          nth_error labels i = Some y).
  { intros pool0 indices w data labels Ho.
    apply obtain_data_from_pool_inv in Ho.
    destruct Ho as (samples & Hl & -> & ->).
    apply lookup_all_nth in Hl. destruct Hl as [Hlen Hnth].
    rewrite !length_map. repeat split; try exact Hlen.
    intros i ind Hi. destruct (Hnth i ind Hi) as ([x y] & Hp & Hs).
    exists x, y. repeat split.
    - exact Hp.
    - rewrite nth_error_map, Hs. reflexivity.
    - rewrite nth_error_map, Hs. reflexivity. }
  split; [exact Hobtain |].
  intros self vis w store Hs.
  apply active_callback_inv in Hs.
  destruct Hs as (acq_vals & w1 & acq_data & _ & Ho & _).
  apply Hobtain in Ho. destruct Ho as (_ & Hlen & Hnth).
  split; [exact Hlen |].
  intros i request Hi. destruct (Hnth i request Hi) as (x & y & Hp & _ & Hy).
  exists x, y. split; assumption.
Qed.

(** * Visualization *)

(** With the warning as handler the guarded visualization always completes. *)
Lemma guarded_vis_completes (body : M unit) (ev : Event) (w : World) :
  exists w', try_except body (tell ev) w = (Ok tt, w').
Proof.
  unfold try_except. destruct (body w) as [[[] | e] w1].
  - exists w1. reflexivity.
  - eexists. reflexivity.
Qed.

(** When the visualization raises, the warning is printed. *)
Lemma guarded_vis_warns (body : M unit) (msg : string) (w w1 : World)
    (e : Exception) :
  body w = (Raise e, w1) ->
  try_except body (tell (Print msg)) w
  = (Ok tt, {| datamodule := datamodule w1; events := events w1 ++ [Print msg] |}).
Proof. intros Hb. unfold try_except. rewrite Hb. reflexivity. Qed.

(** C4. Whatever the visualization step does, raise included, the error is
    caught and [active_callback] with [vis=True] returns what it returns
    with [vis=False]: the same [ActiveStore], field by field, whenever the
    non-visualizing path returns one. *)
Theorem visualization_failure_is_isolated (self : QuerySampler) (w : World) :
  fst (active_callback self true w) = fst (active_callback self false w).
Proof.
  unfold active_callback.
  apply bind_fst_ext. intros [acq_inds acq_vals] w1.
  apply bind_fst_ext. intros dm1 w2.
  apply bind_fst_ext. intros [acq_data acq_labels] w3.
  apply bind_fst_ext. intros dm2 w4.
  apply bind_fst_ext. intros dm3 w5.
  apply bind_fst_ext. intros accuracy_val w6.
  apply bind_fst_ext. intros dm4 w7.
  apply bind_fst_ext. intros accuracy_test w8.
  unfold bind at 1 2. unfold get_datamodule at 1.
  destruct (guarded_vis_completes
              (vis_callback (n_labelled (train_set dm2)) acq_labels acq_data
                 acq_vals (num_classes (datamodule w8)) (self_count self))
              (Print no_vis_message) w8) as [w9 ->].
  reflexivity.
Qed.

(** * The pool is only read *)

(** C9. [active_callback], [query_samples] and [obtain_data_from_pool] leave
    the data module as it was, its pool and its count of labelled samples
    included, for every data module, with and without visualization, and
    also when the round ends in an error. *)
Theorem acquisition_is_read_only (self : QuerySampler) (w : World) :
  (forall vis : bool, datamodule (snd (active_callback self vis w)) = datamodule w) /\
  datamodule (snd (query_samples self w)) = datamodule w /\
  (forall (pool : list (Tensor * Z)) (indices : list nat),
     datamodule (snd (obtain_data_from_pool pool indices w)) = datamodule w).
Proof.
  repeat split.
  - intros vis. apply frame_active_callback.
  - apply frame_query_samples.
  - intros pool0 indices. apply frame_obtain_data_from_pool.
Qed.

(** * The record of a round *)

Lemma NoDup_map_inj_on {A B : Type} (f : A -> B) (l : list A) :
  (forall x y : A, In x l -> In y l -> f x = f y -> x = y) ->
  NoDup l -> NoDup (map f l).
Proof.
  intros Hinj Hl. induction Hl as [| a l Ha Hl IH]; simpl.
  - constructor.
  - constructor.
    + intros Hin. apply in_map_iff in Hin. destruct Hin as (b & Hfb & Hb).
      assert (b = a) by (apply Hinj; simpl; auto). subst. contradiction.
    + apply IH. intros x y Hx Hy. apply Hinj; simpl; auto.
Qed.

(** C8. In every [ActiveStore] returned by [active_callback] the requests,
    the labels and the scores of the ranking round have one length, and no
    request occurs twice.  The round runs the uncertainty policy, or the
    diversity policy with a sampler that keeps its call contract, and the
    data module gives distinct pool samples distinct caller-visible
    indices. *)
Theorem active_store_lengths (self : QuerySampler) (vis : bool) (w : World)
    (store : storing.ActiveStore) :
  policy_available self (current_pool_loader self w) (current_labeled_loader w) ->
  (forall i j : nat,
     i < pool_size (current_pool_loader self w) ->
     j < pool_size (current_pool_loader self w) ->
     pool_index_map (datamodule w) i = pool_index_map (datamodule w) j ->
     i = j) ->
  fst (active_callback self vis w) = Ok store ->
  exists acq_vals : list Q,
    fst (query_samples self w) = Ok (storing.requests store, acq_vals) /\
    length (storing.requests store) = length (storing.labels store) /\
    length (storing.labels store) = length acq_vals /\
    NoDup (storing.requests store).
Proof.
  intros Hp Hinj Hs.
  apply active_callback_inv in Hs.
  destruct Hs as (acq_vals & w1 & acq_data & Hq & Ho & _).
  exists acq_vals.
  assert (Hq' : fst (query_samples self w) = Ok (storing.requests store, acq_vals))
    by (rewrite Hq; reflexivity).
  split; [exact Hq' |].
  apply obtain_data_from_pool_inv in Ho.
  destruct Ho as (samples & Hl & _ & Hlabels).
  apply lookup_all_nth in Hl. destruct Hl as [Hlen _].
  rewrite query_samples_run in Hq'.
  pose proof (ranking_step_outcome self _ _ w Hp) as Hout.
  destruct (fst (ranking_step self (current_pool_loader self w)
                   (current_labeled_loader w) w)) as [[inds vals] | e];
    [| discriminate].
  injection Hq' as Hreq Hvals.
  destruct Hout as [_ (Hn & Hv & Hnd & Hlt)].
  rewrite Hlabels, length_map, Hlen.
  repeat split.
  - rewrite <- Hreq, <- Hvals. unfold get_pool_indices.
    rewrite length_map. symmetry. exact Hv.
  - rewrite <- Hreq. unfold get_pool_indices.
    apply NoDup_map_inj_on; [| exact Hnd].
    rewrite Forall_forall in Hlt.
    intros x y Hx Hy. apply Hinj; apply Hlt; assumption.
Qed.

(** * Accuracy *)

Lemma count_equal_le (pred : list nat) :
  forall y : list Z, count_equal pred y <= length y.
Proof.
  induction pred as [| p ps IH]; intros [| t ts]; simpl; try lia.
  specialize (IH ts). destruct (Z.eqb (Z.of_nat p) t); lia.
Qed.

Lemma evaluate_loop_bound (model : Model) (dataloader : EvalLoader) :
  forall (correct counts : nat) (w : World) (correct' counts' : nat),
    fst (evaluate_loop model dataloader correct counts w) = Ok (correct', counts') ->
    correct <= counts -> correct' <= counts'.
Proof.
  induction dataloader as [| batch rest IH];
    intros correct counts w correct' counts' He Hle; simpl in He.
  - injection He as <- <-. exact Hle.
  - apply bind_ok_inv in He. destruct He as ([] & w1 & _ & He).
    apply bind_ok_inv in He. destruct He as (pred & w2 & _ & He).
    apply IH in He; [exact He |].
    pose proof (count_equal_le pred (map snd batch)). lia.
Qed.

Lemma true_div_range (correct counts : nat) (w : World) (q : Q) :
  correct <= counts ->
  fst (true_div correct counts w) = Ok q -> (0 <= q <= 1)%Q.
Proof.
  intros Hle Hq. unfold true_div in Hq.
  destruct counts as [| n]; [discriminate |].
  injection Hq as <-. unfold Qle. cbn [Qnum Qden].
  change (match n with O => 1%positive | S _ => Pos.succ (Pos.of_nat n) end)
    with (Pos.of_nat (S n)).
  rewrite <- Pos.of_nat_succ, Zpos_P_of_succ_nat. lia.
Qed.

(** An absent loader gives accuracy 0. *)
Lemma evaluate_accuracy_absent (model : Model) (device : string) (w : World) :
  evaluate_accuracy model None device w = (Ok 0%Q, w).
Proof. reflexivity. Qed.

(** Whatever [evaluate_accuracy] returns lies between 0 and 1. *)
Lemma evaluate_accuracy_range (model : Model) (dataloader : option EvalLoader)
    (device : string) (w : World) (q : Q) :
  fst (evaluate_accuracy model dataloader device w) = Ok q -> (0 <= q <= 1)%Q.
Proof.
  unfold evaluate_accuracy. destruct dataloader as [batches |].
  - intros Hq. apply bind_ok_inv in Hq.
    destruct Hq as ([correct counts] & w1 & He & Hq).
    apply (true_div_range correct counts w1); [| exact Hq].
    apply (evaluate_loop_bound model batches 0 0 w); [| lia].
    rewrite He. reflexivity.
  - intros Hq. injection Hq as <-. split; discriminate.
Qed.

Lemma argmax_dim1_ok (out : list (list Q)) (w : World) :
  Forall (fun row => row <> []) out ->
  exists pred : list nat, argmax_dim1 out w = (Ok pred, w).
Proof.
  induction 1 as [| row rows Hrow _ IH]; simpl.
  - exists []. reflexivity.
  - destruct row as [| v vs]; [contradiction |]. simpl.
    destruct IH as [ps IH]. unfold bind. rewrite IH.
    eexists. reflexivity.
Qed.

Lemma evaluate_loop_ok (model : Model) (dataloader : EvalLoader) :
  (forall x : Tensor, model x <> []) ->
  forall (correct counts : nat) (w : World),
  exists (correct' : nat) (w' : World),
    evaluate_loop model dataloader correct counts w
    = (Ok (correct', counts + length (concat dataloader)), w').
Proof.
  intros Hm. induction dataloader as [| batch rest IH];
    intros correct counts w; simpl.
  - exists correct, w. rewrite Nat.add_0_r. reflexivity.
  - unfold bind at 1. unfold tell at 1. unfold bind at 1.
    match goal with
    | |- context [argmax_dim1 ?out ?w1] =>
        destruct (argmax_dim1_ok out w1) as [pred ->]
    end.
    + apply Forall_forall. intros row Hrow. apply in_map_iff in Hrow.
      destruct Hrow as (x & <- & _). apply Hm.
    + destruct (IH (correct + count_equal pred (map snd batch))
                  (counts + length (map snd batch))
                  {| datamodule := datamodule w;
                     events := events w ++ [Forward (length (map fst batch))] |})
        as (c' & w' & Hr).
      rewrite Hr. exists c', w'. do 3 f_equal.
      rewrite length_map, length_app. lia.
Qed.

(** For a loader with at least one sample and a model with at least one
    class, [evaluate_accuracy] returns, and the value lies between 0 and 1. *)
Lemma evaluate_accuracy_returns (model : Model) (batches : EvalLoader)
    (device : string) (w : World) :
  (forall x : Tensor, model x <> []) ->
  0 < length (concat batches) ->
  exists (q : Q) (w' : World),
    evaluate_accuracy model (Some batches) device w = (Ok q, w') /\
    (0 <= q <= 1)%Q.
Proof.
  intros Hm Hpos.
  destruct (evaluate_loop_ok model batches Hm 0 0 w) as (c & w1 & He).
  assert (Hq : exists q, evaluate_accuracy model (Some batches) device w = (Ok q, w1)).
  { unfold evaluate_accuracy, bind. rewrite He. unfold true_div.
    destruct (0 + length (concat batches)) eqn:E; [lia |].
    eexists. reflexivity. }
  destruct Hq as [q Hq]. exists q, w1. split; [exact Hq |].
  apply (evaluate_accuracy_range model (Some batches) device w).
  rewrite Hq. reflexivity.
Qed.

(** C7, at the failing input: a loader that is present but yields no batch
    makes [evaluate_accuracy] divide by zero instead of reporting 0. *)
Theorem evaluate_accuracy_empty_loader (model : Model) (device : string)
    (w : World) :
  evaluate_accuracy model (Some []) device w = (Raise ZeroDivisionError, w).
Proof. reflexivity. Qed.

(** * Accuracy, exactly *)

Lemma n_correct_app (model : Model) (l1 l2 : list (Tensor * Z)) :
  n_correct model (l1 ++ l2) = n_correct model l1 + n_correct model l2.
Proof. unfold n_correct. rewrite filter_app, length_app. reflexivity. Qed.

Lemma n_correct_le (model : Model) (l : list (Tensor * Z)) :
  n_correct model l <= length l.
Proof. unfold n_correct. apply filter_length_le. Qed.

(** Either some sample of the list gets no class score, or all get one. *)
Lemma class_scores_cases (model : Model) (l : list (Tensor * Z)) :
  (exists s, In s l /\ model (fst s) = []) \/
  (forall s, In s l -> model (fst s) <> []).
Proof.
  induction l as [| a l IH].
  - right. intros s [].
  - destruct (model (fst a)) as [| v vs] eqn:E.
    + left. exists a. split; [left; reflexivity | exact E].
    + destruct IH as [(s & Hs & Hm) | IH].
      * left. exists s. split; [right; exact Hs | exact Hm].
      * right. intros s [<- | Hs]; [rewrite E; discriminate | apply IH, Hs].
Qed.

Lemma argmax_dim1_run (model : Model) (batch : EvalBatch) (w : World) :
  (forall s, In s batch -> model (fst s) <> []) ->
  exists pred : list nat,
    argmax_dim1 (map model (map fst batch)) w = (Ok pred, w) /\
    count_equal pred (map snd batch) = n_correct model batch.
Proof.
  induction batch as [| a batch IH]; intros Hm; simpl.
  - exists []. split; reflexivity.
  - destruct IH as (pred & Hrun & Hcount).
    { intros s Hs. apply Hm. right. exact Hs. }
    pose proof (Hm a (or_introl eq_refl)) as Ha.
    unfold n_correct. simpl. unfold classified_correctly at 1.
    destruct (model (fst a)) as [| v vs]; [contradiction |]. simpl.
    unfold bind. rewrite Hrun. eexists. split; [reflexivity |]. simpl.
    fold (n_correct model batch). rewrite Hcount.
    destruct (Z.eqb _ (snd a)); reflexivity.
Qed.

Lemma argmax_dim1_fail (model : Model) (batch : EvalBatch) (w : World) :
  (exists s, In s batch /\ model (fst s) = []) ->
  argmax_dim1 (map model (map fst batch)) w = (Raise RuntimeError, w).
Proof.
  induction batch as [| a batch IH]; intros (s & Hs & Hm); simpl.
  - contradiction.
  - destruct (model (fst a)) as [| v vs] eqn:E; simpl; [reflexivity |].
    unfold bind. rewrite IH; [reflexivity |].
    destruct Hs as [<- | Hs]; [congruence |]. exists s. split; assumption.
Qed.

Lemma evaluate_loop_value (model : Model) (dataloader : EvalLoader) :
  forall (correct counts : nat) (w : World),
    (forall s, In s (concat dataloader) -> model (fst s) <> []) ->
    exists w' : World,
      evaluate_loop model dataloader correct counts w
      = (Ok (correct + n_correct model (concat dataloader),
             counts + length (concat dataloader)), w').
Proof.
  induction dataloader as [| batch rest IH]; intros correct counts w Hm; simpl.
  - exists w. rewrite !Nat.add_0_r. reflexivity.
  - unfold bind at 1. unfold tell at 1. unfold bind at 1.
    match goal with
    | |- context [argmax_dim1 _ ?w1] =>
        destruct (argmax_dim1_run model batch w1) as (pred & -> & Hc)
    end.
    { intros s Hs. apply Hm. simpl. apply in_or_app. left. exact Hs. }
    match goal with
    | |- context [evaluate_loop model rest ?c ?n ?w1] =>
        destruct (IH c n w1) as [w' ->]
    end.
    { intros s Hs. apply Hm. simpl. apply in_or_app. right. exact Hs. }
    exists w'. rewrite Hc, n_correct_app, length_map, length_app.
    do 3 f_equal; lia.
Qed.

Lemma evaluate_loop_fail (model : Model) (dataloader : EvalLoader) :
  forall (correct counts : nat) (w : World),
    (exists s, In s (concat dataloader) /\ model (fst s) = []) ->
    fst (evaluate_loop model dataloader correct counts w) = Raise RuntimeError.
Proof.
  induction dataloader as [| batch rest IH];
    intros correct counts w (s & Hs & Hm); simpl in *.
  - contradiction.
  - unfold bind at 1. unfold tell at 1. unfold bind at 1.
    destruct (class_scores_cases model batch) as [Hbad | Hgood].
    + rewrite (argmax_dim1_fail model batch _ Hbad). reflexivity.
    + match goal with
      | |- context [argmax_dim1 _ ?w1] =>
          destruct (argmax_dim1_run model batch w1 Hgood) as (pred & -> & _)
      end.
      apply IH. exists s. split; [| exact Hm].
      apply in_app_or in Hs. destruct Hs as [Hs | Hs]; [| exact Hs].
      exfalso. apply (Hgood s Hs). exact Hm.
Qed.

(** The three outcomes of [evaluate_accuracy] on a loader that is present. *)
Lemma evaluate_accuracy_cases (model : Model) (batches : EvalLoader)
    (device : string) (w : World) :
  ((exists s, In s (concat batches) /\ model (fst s) = []) /\
   fst (evaluate_accuracy model (Some batches) device w) = Raise RuntimeError) \/
  (concat batches = [] /\
   fst (evaluate_accuracy model (Some batches) device w) = Raise ZeroDivisionError) \/
  ((forall s, In s (concat batches) -> model (fst s) <> []) /\
   concat batches <> [] /\
   fst (evaluate_accuracy model (Some batches) device w)
   = Ok (Z.of_nat (n_correct model (concat batches))
         # Pos.of_nat (length (concat batches)))).
Proof.
  destruct (class_scores_cases model (concat batches)) as [Hbad | Hgood].
  - left. split; [exact Hbad |].
    unfold evaluate_accuracy, bind.
    pose proof (evaluate_loop_fail model batches 0 0 w Hbad) as Hf.
    destruct (evaluate_loop model batches 0 0 w) as [[[c n] | e] w1];
      simpl in *; [discriminate | injection Hf as ->; reflexivity].
  - right. unfold evaluate_accuracy, bind.
    destruct (evaluate_loop_value model batches 0 0 w Hgood) as [w1 ->].
    cbn [fst snd Nat.add].
    assert (Hlen : concat batches = [] \/
                   exists n, length (concat batches) = S n).
    { destruct (concat batches); [left; reflexivity | right; eexists; reflexivity]. }
    destruct Hlen as [Hnil | [n Hn]].
    + left. split; [exact Hnil |]. rewrite Hnil. reflexivity.
    + right. split; [exact Hgood |].
      split; [intros Hnil; rewrite Hnil in Hn; discriminate |].
      unfold true_div. rewrite Hn. reflexivity.
Qed.

(** X1. For a loader with at least one sample and a model that gives every
    sample at least one class score, [evaluate_accuracy] returns the number
    of samples whose first maximal class score is at the target, divided by
    the number of samples: a value between 0 and 1. *)
Theorem accuracy_is_fraction_correct (model : Model) (batches : EvalLoader)
    (device : string) (w : World) :
  (forall s, In s (concat batches) -> model (fst s) <> []) ->
  concat batches <> [] ->
  fst (evaluate_accuracy model (Some batches) device w)
  = Ok (Z.of_nat (n_correct model (concat batches))
        # Pos.of_nat (length (concat batches))) /\
  (0 <= Z.of_nat (n_correct model (concat batches))
        # Pos.of_nat (length (concat batches)) <= 1)%Q.
Proof.
  intros Hgood Hne.
  destruct (evaluate_accuracy_cases model batches device w)
    as [[(s & Hs & Hm) _] | [[Hnil _] | (_ & _ & Hr)]].
  - exfalso. apply (Hgood s Hs). exact Hm.
  - contradiction.
  - split; [exact Hr |].
    apply (evaluate_accuracy_range model (Some batches) device w). exact Hr.
Qed.



(** * Reading the pool, exactly *)

Lemma obtain_data_from_pool_run pool (indices : list nat) (w : World) :
  obtain_data_from_pool pool indices w
  = (match lookup_all pool indices with
     | None => Raise IndexError
     | Some [] => Raise RuntimeError
     | Some (s0 :: rest) =>
         if forallb (fun u => shape_eqb (shape u) (shape (fst s0))) (map fst rest)
         then if forallb fits_int32 (map snd (s0 :: rest))
              then Ok (map fst (s0 :: rest), map snd (s0 :: rest))
              else Raise RuntimeError
         else Raise RuntimeError
     end, w).
Proof.
  unfold obtain_data_from_pool, bind. rewrite obtain_loop_run.
  destruct (lookup_all pool indices) as [[| s0 rest] |]; try reflexivity.
  simpl. destruct (forallb _ (map fst rest)); [| reflexivity].
  unfold ret at 1. unfold torch_tensor_int.
  change (fits_int32 (snd s0) && forallb fits_int32 (map snd rest))
    with (forallb fits_int32 (snd s0 :: map snd rest)).
  destruct (forallb fits_int32 (snd s0 :: map snd rest)); reflexivity.
Qed.

Lemma lookup_all_none pool (indices : list nat) :
  lookup_all pool indices = None <->
  exists ind : nat, In ind indices /\ length pool <= ind.
Proof.
  induction indices as [| ind0 rest IH]; simpl.
  - split; [discriminate | intros (ind & [] & _)].
  - destruct (nth_error pool ind0) as [s |] eqn:E.
    + assert (Hin : ind0 < length pool)
        by (apply nth_error_Some; rewrite E; discriminate).
      destruct (lookup_all pool rest) as [samples |].
      * split; [discriminate |]. intros (ind & [<- | Hi] & Hle); [lia |].
        destruct IH as [_ IH]. discriminate IH. exists ind. split; assumption.
      * split; [| reflexivity]. intros _.
        destruct IH as [IH _]. destruct (IH eq_refl) as (ind & Hi & Hle).
        exists ind. split; [right; exact Hi | exact Hle].
    + split; [| reflexivity]. intros _. exists ind0.
      split; [left; reflexivity | apply nth_error_None; exact E].
Qed.

Lemma lookup_all_Forall2 pool (indices : list nat) :
  forall samples : list (Tensor * Z),
    lookup_all pool indices = Some samples <->
    Forall2 (fun ind s => nth_error pool ind = Some s) indices samples.
Proof.
  induction indices as [| ind0 rest IH]; intros samples; simpl.
  - split.
    + intros Hs. injection Hs as <-. constructor.
    + intros Hf. inversion Hf. reflexivity.
  - split.
    + destruct (nth_error pool ind0) as [s0 |] eqn:E; [| discriminate].
      destruct (lookup_all pool rest) as [samples' |] eqn:El; [| discriminate].
      intros Hs. injection Hs as <-. constructor; [exact E |].
      apply IH. reflexivity.
    + intros Hf. inversion Hf as [| ? s0 ? samples' E Hrest]; subst.
      rewrite E. apply IH in Hrest. rewrite Hrest. reflexivity.
Qed.

(** X4. [obtain_data_from_pool] raises [IndexError] exactly when one of the
    indices is not a position of the pool, and it never changes the world:
    neither the data module nor the log. *)
Theorem obtain_data_index_error (pool : list (Tensor * Z)) (indices : list nat)
    (w : World) :
  snd (obtain_data_from_pool pool indices w) = w /\
  (fst (obtain_data_from_pool pool indices w) = Raise IndexError <->
   exists ind : nat, In ind indices /\ length pool <= ind).
Proof.
  rewrite obtain_data_from_pool_run. split; [reflexivity |].
  rewrite <- lookup_all_none. simpl.
  destruct (lookup_all pool indices) as [[| s0 rest] |].
  - split; discriminate.
  - destruct (forallb _ (map fst rest));
      [destruct (fits_int32 (snd s0) && forallb fits_int32 (map snd rest)) |];
      split; discriminate.
  - split; reflexivity.
Qed.

(** X5. [obtain_data_from_pool] returns [(data, labels)] exactly when there
    is at least one index, every index is a position of the pool, the
    inputs found there have one shape and their labels are in the range of
    [torch.int]; [data] and [labels] are then the inputs and the labels of
    those samples, in the order of the indices. *)
Theorem obtain_data_returns_iff (pool : list (Tensor * Z)) (indices : list nat)
    (w : World) (data : list Tensor) (labels : list Z) :
  fst (obtain_data_from_pool pool indices w) = Ok (data, labels) <->
  exists samples : list (Tensor * Z),
    Forall2 (fun ind s => nth_error pool ind = Some s) indices samples /\
    indices <> [] /\
    (forall s s', In s samples -> In s' samples -> shape (fst s) = shape (fst s')) /\
    Forall (fun s => fits_int32 (snd s) = true) samples /\
    data = map fst samples /\
    labels = map snd samples.
Proof.
  split.
  - rewrite obtain_data_from_pool_run. simpl.
    destruct (lookup_all pool indices) as [[| s0 rest] |] eqn:El;
      try discriminate.
    destruct (forallb _ (map fst rest)) eqn:Es; [| discriminate].
    change (fits_int32 (snd s0) && forallb fits_int32 (map snd rest))
      with (forallb fits_int32 (map snd (s0 :: rest))).
    destruct (forallb fits_int32 (map snd (s0 :: rest))) eqn:Ef; [| discriminate].
    intros Hr. injection Hr as <- <-.
    exists (s0 :: rest). apply lookup_all_Forall2 in El.
    split; [exact El |]. split.
    { intros ->. inversion El. }
    split; [| split; [| split; reflexivity]].
    + assert (Hall : forall s, In s (s0 :: rest) -> shape (fst s) = shape (fst s0)).
      { intros s [<- | Hs]; [reflexivity |].
        rewrite forallb_forall in Es.
        specialize (Es (fst s) (in_map fst rest s Hs)). unfold shape_eqb in Es.
        destruct (list_eq_dec Nat.eq_dec (shape (fst s)) (shape (fst s0)));
          [assumption | discriminate]. }
      intros s s' Hs Hs'. rewrite (Hall s Hs), (Hall s' Hs'). reflexivity.
    + rewrite forallb_forall in Ef. apply Forall_forall. intros s Hs.
      apply Ef. apply in_map. exact Hs.
  - intros (samples & Hf & Hne & Hshape & Hfit & -> & ->).
    apply lookup_all_Forall2 in Hf.
    rewrite (obtain_data_from_pool_returns pool indices w samples Hne Hf Hshape Hfit).
    reflexivity.
Qed.

(** * The record of a round, continued *)

Lemma active_callback_inv_accuracy (self : QuerySampler) (vis : bool) (w : World)
    (store : storing.ActiveStore) :
  fst (active_callback self vis w) = Ok store ->
  exists w2 w4 : World,
    fst (evaluate_accuracy (self_model self) (val_dataloader (datamodule w))
           (self_device self) w2) = Ok (storing.accuracy_val store) /\
    fst (evaluate_accuracy (self_model self) (test_dataloader (datamodule w))
           (self_device self) w4) = Ok (storing.accuracy_test store).
Proof.
  intros Hs. unfold active_callback in Hs.
  apply bind_ok_inv in Hs. destruct Hs as ([inds vals] & w1 & Hq & Hs).
  pose proof (frame_query_samples self w) as F1. rewrite Hq in F1. simpl in F1.
  apply bind_ok_inv in Hs. destruct Hs as (dm1 & w1' & Hg & Hs).
  injection Hg as <- <-.
  apply bind_ok_inv in Hs. destruct Hs as ([data labels] & w2 & Ho & Hs).
  pose proof (frame_obtain_data_from_pool (pool (train_set (datamodule w1)))
                inds w1) as F2.
  rewrite Ho in F2. simpl in F2.
  apply bind_ok_inv in Hs. destruct Hs as (dm2 & w2' & Hg & Hs).
  injection Hg as <- <-.
  apply bind_ok_inv in Hs. destruct Hs as (dm3 & w3 & Hg & Hs).
  injection Hg as <- <-.
  apply bind_ok_inv in Hs. destruct Hs as (acc_val & w4 & Hv & Hs).
  pose proof (frame_evaluate_accuracy (self_model self)
                (val_dataloader (datamodule w2)) (self_device self) w2) as F3.
  rewrite Hv in F3. simpl in F3.
  apply bind_ok_inv in Hs. destruct Hs as (dm4 & w5 & Hg & Hs).
  injection Hg as <- <-.
  apply bind_ok_inv in Hs. destruct Hs as (acc_test & w6 & Ht & Hs).
  apply bind_ok_inv in Hs. destruct Hs as (u & w7 & _ & Hs).
  simpl in Hs. injection Hs as <-. simpl.
  exists w2, w4. rewrite F3, F2, F1 in Ht. rewrite F2, F1 in Hv.
  rewrite Hv, Ht. split; reflexivity.
Qed.

(** X6. In every [ActiveStore] that [active_callback] returns, each accuracy
    is 0 when the data module has no loader for the split and otherwise the
    fraction of correctly classified samples of a split that holds at least
    one sample; both lie between 0 and 1, and [n_labelled] is the data
    module's count at the call. *)
Theorem active_store_accuracies (self : QuerySampler) (vis : bool) (w : World)
    (store : storing.ActiveStore) :
  fst (active_callback self vis w) = Ok store ->
  (0 <= storing.accuracy_val store <= 1)%Q /\
  (0 <= storing.accuracy_test store <= 1)%Q /\
  (val_dataloader (datamodule w) = None -> storing.accuracy_val store = 0%Q) /\
  (test_dataloader (datamodule w) = None -> storing.accuracy_test store = 0%Q) /\
  (forall batches : EvalLoader,
     val_dataloader (datamodule w) = Some batches ->
     concat batches <> [] /\
     storing.accuracy_val store
     = Z.of_nat (n_correct (self_model self) (concat batches))
       # Pos.of_nat (length (concat batches))) /\
  (forall batches : EvalLoader,
     test_dataloader (datamodule w) = Some batches ->
     concat batches <> [] /\
     storing.accuracy_test store
     = Z.of_nat (n_correct (self_model self) (concat batches))
       # Pos.of_nat (length (concat batches))) /\
  storing.n_labelled store = n_labelled (train_set (datamodule w)).
Proof.
  intros Hs.
  destruct (active_callback_inv_accuracy self vis w store Hs)
    as (w2 & w4 & Hv & Ht).
  destruct (active_callback_inv self vis w store Hs) as (_ & _ & _ & _ & _ & Hn).
  assert (Hsome : forall loader batches w' q,
             loader = Some batches ->
             fst (evaluate_accuracy (self_model self) loader (self_device self) w')
             = Ok q ->
             concat batches <> [] /\
             q = Z.of_nat (n_correct (self_model self) (concat batches))
                 # Pos.of_nat (length (concat batches))).
  { intros loader batches w' q -> Hq.
    destruct (evaluate_accuracy_cases (self_model self) batches (self_device self) w')
      as [[_ Hr] | [[_ Hr] | (_ & Hne & Hr)]]; rewrite Hr in Hq;
      try discriminate.
    injection Hq as <-. split; [exact Hne | reflexivity]. }
  repeat split.
  - apply (evaluate_accuracy_range _ _ _ _ _ Hv).
  - apply (evaluate_accuracy_range _ _ _ _ _ Hv).
  - apply (evaluate_accuracy_range _ _ _ _ _ Ht).
  - apply (evaluate_accuracy_range _ _ _ _ _ Ht).
  - intros Hnone. rewrite Hnone in Hv. injection Hv as <-. reflexivity.
  - intros Hnone. rewrite Hnone in Ht. injection Ht as <-. reflexivity.
  - apply (Hsome _ batches w2 _ H0 Hv).
  - apply (Hsome _ batches w2 _ H0 Hv).
  - apply (Hsome _ batches w4 _ H0 Ht).
  - apply (Hsome _ batches w4 _ H0 Ht).
  - exact Hn.
Qed.

(** X7. When the selection of the round is empty, [active_callback] returns
    no record: stacking the empty list of acquired inputs raises
    [RuntimeError], before any accuracy is evaluated. *)
Theorem empty_selection_aborts (self : QuerySampler) (vis : bool) (w : World)
    (acq_vals : list Q) :
  fst (query_samples self w) = Ok ([], acq_vals) ->
  fst (active_callback self vis w) = Raise RuntimeError /\
  snd (active_callback self vis w) = snd (query_samples self w).
Proof.
  intros Hq.
  assert (Hrun : active_callback self vis w
                 = (Raise RuntimeError, snd (query_samples self w))).
  { unfold active_callback, bind at 1.
    destruct (query_samples self w) as [[[inds vals] | e] w1]; simpl in Hq;
      [| discriminate].
    injection Hq as -> ->. cbn [snd].
    unfold bind at 1. unfold get_datamodule at 1. unfold bind at 1.
    rewrite obtain_data_from_pool_run. reflexivity. }
  rewrite Hrun. split; reflexivity.
Qed.

(** * Visualization, step by step *)

Lemma new_events_app {A : Type} (c : M A) (w : World) (evs : list Event) :
  events (snd (c w)) = events w ++ evs -> new_events c w = evs.
Proof.
  intros He. unfold new_events. rewrite He.
  rewrite skipn_app, Nat.sub_diag, skipn_all. reflexivity.
Qed.

(** The outcomes of [vis_callback]: it stops before the first figure, after
    the first figure, or completes. *)
Lemma vis_callback_cases (n : nat) (acq_labels : list Z) (acq_data : list Tensor)
    (acq_vals : list Q) (classes : nat) (count : option Z) (w : World) :
  exists k : nat,
    (k = 0 \/ k = 2 \/ k = 4) /\
    datamodule (snd (vis_callback n acq_labels acq_data acq_vals classes count w))
    = datamodule w /\
    events (snd (vis_callback n acq_labels acq_data acq_vals classes count w))
    = events w ++ firstn k (vis_events count) /\
    (fst (vis_callback n acq_labels acq_data acq_vals classes count w) = Ok tt
     <-> k = 4).
Proof.
  unfold vis_callback, savefig, bind, lift, tell. cbv zeta.
  fold (figure_suffix count).
  change (path_join "." ("labeled_samples" ++ figure_suffix count ++ ".pdf")%string)
    with (samples_figure count).
  change (path_join "." ("labelled_targets" ++ figure_suffix count ++ ".pdf")%string)
    with (targets_figure count).
  destruct (active_plots_normalize acq_data) as [normalized | e1].
  2: { exists 0. simpl. rewrite app_nil_r.
       repeat split; auto; intros; discriminate. }
  destruct (active_plots_visualize_samples normalized acq_vals) as [[] | e2].
  2: { exists 0. simpl. rewrite app_nil_r.
       repeat split; auto; intros; discriminate. }
  destruct (plt_savefig (samples_figure count)) as [[] | e3].
  2: { exists 0. simpl. rewrite app_nil_r.
       repeat split; auto; intros; discriminate. }
  simpl.
  destruct (active_plots_visualize_labels acq_labels classes) as [[] | e4].
  2: { exists 2. simpl. rewrite <- app_assoc.
       repeat split; auto; intros; discriminate. }
  destruct (plt_savefig (targets_figure count)) as [[] | e5].
  2: { exists 2. simpl. rewrite <- app_assoc.
       repeat split; auto; intros; discriminate. }
  exists 4. simpl. rewrite <- !app_assoc. repeat split; auto.
Qed.



(** ** The names of the figures *)

Lemma length_append (a b : string) :
  String.length (a ++ b) = String.length a + String.length b.
Proof. induction a as [| c a IH]; simpl; [| rewrite IH]; reflexivity. Qed.

Lemma append_inj_r (c : string) :
  forall a b : string, (a ++ c = b ++ c)%string -> a = b.
Proof.
  induction a as [| x a IH]; intros [| y b] E; simpl in E.
  - reflexivity.
  - apply (f_equal String.length) in E. simpl in E.
    rewrite length_append in E. lia.
  - apply (f_equal String.length) in E. simpl in E.
    rewrite length_append in E. lia.
  - injection E as -> E. f_equal. apply IH. exact E.
Qed.

Lemma str_of_int_inj (z z' : Z) : str_of_int z = str_of_int z' -> z = z'.
Proof.
  unfold str_of_int. intros E.
  assert (Hn : forall x : Z,
             NilZero.int_of_string (NilZero.string_of_int (Z.to_int x))
             = Some (Z.to_int x)).
  { intros x. apply NilZero.isi; destruct x; simpl; try discriminate;
      intros Hx; injection Hx as Hx;
      exact (DecimalPos.Unsigned.to_uint_nonnil _ Hx). }
  apply (f_equal NilZero.int_of_string) in E. rewrite !Hn in E.
  injection E as E. apply DecimalZ.to_int_inj. exact E.
Qed.

Lemma figure_suffix_inj (count count' : option Z) :
  figure_suffix count = figure_suffix count' -> count = count'.
Proof.
  destruct count as [c |], count' as [c' |]; simpl; intros E;
    try discriminate; [| reflexivity].
  injection E as E. f_equal. apply str_of_int_inj. exact E.
Qed.

(** X10. Calls of [vis_callback] with different counts never save a figure
    under the same name, and a call with a count never uses a name of a call
    without one: the figures of different iterations do not overwrite each
    other. *)
Theorem figures_of_counts_differ (n n' : nat) (acq_labels acq_labels' : list Z)
    (acq_data acq_data' : list Tensor) (acq_vals acq_vals' : list Q)
    (classes classes' : nat) (count count' : option Z) (w w' : World)
    (path : string) :
  count <> count' ->
  In (SaveFig path)
     (new_events (vis_callback n acq_labels acq_data acq_vals classes count) w) ->
  ~ In (SaveFig path)
      (new_events (vis_callback n' acq_labels' acq_data' acq_vals' classes' count') w').
Proof.
  intros Hne H1 H2. apply Hne.
  assert (Hnames : forall m l d v k c w0,
             In (SaveFig path) (new_events (vis_callback m l d v k c) w0) ->
             path = samples_figure c \/ path = targets_figure c).
  { intros m l d v k c w0 Hin.
    destruct (vis_callback_cases m l d v k c w0) as (j & _ & _ & He & _).
    rewrite (new_events_app _ _ _ He) in Hin.
    assert (Hin' : In (SaveFig path) (vis_events c)).
    { rewrite <- (firstn_skipn j (vis_events c)). apply in_or_app. left. exact Hin. }
    simpl in Hin'.
    destruct Hin' as [E | [E | [E | [E | []]]]]; try discriminate;
      injection E as E; auto. }
  apply Hnames in H1. apply Hnames in H2.
  apply figure_suffix_inj. apply (append_inj_r ".pdf").
  unfold samples_figure, targets_figure in *.
  destruct H1 as [-> | ->], H2 as [E | E]; simpl in E;
    try discriminate; injection E as E; exact E.
Qed.

(** * What is logged *)

Lemma logs_only_ret {A : Type} (kind : Event -> bool) (a : A) :
  logs_only kind (ret a).
Proof. intros w. exists []. rewrite app_nil_r. split; reflexivity. Qed.

Lemma logs_only_raise {A : Type} (kind : Event -> bool) (e : Exception) :
  logs_only kind (@raise A e).
Proof. intros w. exists []. rewrite app_nil_r. split; reflexivity. Qed.

Lemma logs_only_lift {A : Type} (kind : Event -> bool) (r : Result A) :
  logs_only kind (lift r).
Proof. intros w. exists []. rewrite app_nil_r. split; reflexivity. Qed.

Lemma logs_only_get_datamodule (kind : Event -> bool) :
  logs_only kind get_datamodule.
Proof. intros w. exists []. rewrite app_nil_r. split; reflexivity. Qed.

Lemma logs_only_tell (kind : Event -> bool) (ev : Event) :
  kind ev = true -> logs_only kind (tell ev).
Proof. intros Hk w. exists [ev]. simpl. rewrite Hk. split; reflexivity. Qed.

Lemma logs_only_bind {A B : Type} (kind : Event -> bool) (c : M A) (f : A -> M B) :
  logs_only kind c -> (forall a : A, logs_only kind (f a)) ->
  logs_only kind (bind c f).
Proof.
  intros Hc Hf w. unfold bind. destruct (Hc w) as (evs & He & Hk).
  destruct (c w) as [[a | e] w1]; simpl in *.
  - destruct (Hf a w1) as (evs' & He' & Hk').
    exists (evs ++ evs'). rewrite He', He, app_assoc, forallb_app, Hk, Hk'.
    split; reflexivity.
  - exists evs. split; assumption.
Qed.

Lemma logs_only_try_except {A : Type} (kind : Event -> bool) (body handler : M A) :
  logs_only kind body -> logs_only kind handler ->
  logs_only kind (try_except body handler).
Proof.
  intros Hb Hh w. unfold try_except. destruct (Hb w) as (evs & He & Hk).
  destruct (body w) as [[a | e] w1]; simpl in *.
  - exists evs. split; assumption.
  - destruct (Hh w1) as (evs' & He' & Hk').
    exists (evs ++ evs'). rewrite He', He, app_assoc, forallb_app, Hk, Hk'.
    split; reflexivity.
Qed.

Create HintDb logs.
#[local] Hint Resolve logs_only_ret logs_only_raise logs_only_lift
  logs_only_get_datamodule logs_only_try_except : logs.
#[local] Hint Extern 1 (logs_only _ (tell _)) =>
  apply logs_only_tell; reflexivity : logs.

Ltac logs_steps :=
  repeat first
    [ progress auto with logs
    | apply logs_only_bind; [| intros ? ]
    | match goal with
      | |- logs_only _ (match ?x with _ => _ end) => destruct x
      | |- logs_only _ (let _ := _ in _) => cbv zeta
      end ].

Lemma logs_forward_passes (m n : nat) : logs_only is_forward (forward_passes m n).
Proof. induction m as [| m IH]; simpl; logs_steps. Qed.

#[local] Hint Resolve logs_forward_passes : logs.

Lemma logs_scan_pool acq post (m k : nat) (batches : Loader) :
  forall (offset : nat) (topk : list ScoredIndex),
    logs_only is_forward (scan_pool acq post m k batches offset topk).
Proof.
  induction batches as [| b rest IH]; intros offset topk; simpl;
    unfold score_batch; logs_steps.
Qed.

#[local] Hint Resolve logs_scan_pool : logs.

Lemma logs_ranking_step (self : QuerySampler) pl ll :
  logs_only is_forward (ranking_step self pl ll).
Proof.
  unfold ranking_step, query_uncertainty_query_sampler. cbv zeta.
  destruct (contains _ query_uncertainty_names); [logs_steps |].
  destruct (contains _ query_diversity_names); logs_steps.
Qed.

#[local] Hint Resolve logs_ranking_step : logs.

Lemma logs_query_samples (self : QuerySampler) :
  logs_only is_forward (query_samples self).
Proof. unfold query_samples. logs_steps. Qed.

Lemma logs_obtain_data_from_pool pool (indices : list nat) :
  logs_only is_forward (obtain_data_from_pool pool indices).
Proof.
  intros w. exists []. rewrite obtain_data_from_pool_run, app_nil_r.
  split; reflexivity.
Qed.

Lemma logs_argmax_dim1 (out : list (list Q)) : logs_only is_forward (argmax_dim1 out).
Proof.
  induction out as [| row rows IH]; simpl; [logs_steps |].
  destruct (argmax row); logs_steps.
Qed.

#[local] Hint Resolve logs_query_samples logs_obtain_data_from_pool
  logs_argmax_dim1 : logs.

Lemma logs_evaluate_loop (model : Model) (dataloader : EvalLoader) :
  forall correct counts,
    logs_only is_forward (evaluate_loop model dataloader correct counts).
Proof.
  induction dataloader as [| b rest IH]; intros correct counts; simpl;
    logs_steps.
Qed.

#[local] Hint Resolve logs_evaluate_loop : logs.

Lemma logs_evaluate_accuracy (model : Model) dataloader (device : string) :
  logs_only is_forward (evaluate_accuracy model dataloader device).
Proof.
  unfold evaluate_accuracy, true_div.
  destruct dataloader as [batches |]; logs_steps.
Qed.

#[local] Hint Resolve logs_evaluate_accuracy : logs.

(** X11. Without visualization a round only appends scoring and evaluation
    events to the log: [active_callback] with [vis=False] and
    [query_samples] never print and never save or clear a figure, whether
    they return or raise. *)
Theorem round_without_vis_is_silent (self : QuerySampler) :
  logs_only is_forward (active_callback self false) /\
  logs_only is_forward (query_samples self).
Proof.
  split; [| apply logs_query_samples].
  unfold active_callback. logs_steps.
Qed.

Lemma guarded_vis_logs (n : nat) (acq_labels : list Z) (acq_data : list Tensor)
    (acq_vals : list Q) (classes : nat) (count : option Z) (msg : string) :
  logs_only is_plotting
    (try_except (vis_callback n acq_labels acq_data acq_vals classes count)
       (tell (Print msg))).
Proof.
  apply logs_only_try_except; [| apply logs_only_tell; reflexivity].
  intros w.
  destruct (vis_callback_cases n acq_labels acq_data acq_vals classes count w)
    as (k & Hk & _ & He & _).
  exists (firstn k (vis_events count)). split; [exact He |].
  destruct Hk as [-> | [-> | ->]]; reflexivity.
Qed.

Lemma vis_extends_bind {A B : Type} (c : M A) (f g : A -> M B) (w : World) :
  (forall (a : A) (w' : World), vis_extends (f a w') (g a w')) ->
  vis_extends (bind c f w) (bind c g w).
Proof.
  intros Hfg. unfold bind. destruct (c w) as [[a | e] w1]; [apply Hfg |].
  exists []. simpl. rewrite app_nil_r. split; reflexivity.
Qed.

(** X12. With visualization [active_callback] logs exactly what it logs
    without, followed by events of the visualization only (figures saved
    and cleared, the warning): the visualization comes last and changes
    nothing of the round before it. *)
Theorem visualization_comes_last (self : QuerySampler) (w : World) :
  exists evs : list Event,
    events (snd (active_callback self true w))
    = events (snd (active_callback self false w)) ++ evs /\
    forallb is_plotting evs = true.
Proof.
  change (vis_extends (active_callback self true w) (active_callback self false w)).
  unfold active_callback.
  apply vis_extends_bind. intros [acq_inds acq_vals] w1.
  apply vis_extends_bind. intros dm1 w2.
  apply vis_extends_bind. intros [acq_data acq_labels] w3.
  apply vis_extends_bind. intros dm2 w4.
  apply vis_extends_bind. intros dm3 w5.
  apply vis_extends_bind. intros accuracy_val w6.
  apply vis_extends_bind. intros dm4 w7.
  apply vis_extends_bind. intros accuracy_test w8.
  unfold bind at 1 2 3. unfold get_datamodule at 1. unfold ret at 3.
  destruct (guarded_vis_logs (n_labelled (train_set dm2)) acq_labels acq_data
              acq_vals (num_classes (datamodule w8)) (self_count self)
              no_vis_message w8) as (evs & He & Hk).
  destruct (try_except _ _ w8) as [[[] | e] w9]; simpl in *;
    exists evs; split; assumption.
Qed.

(** * The prefix, exactly *)

Lemma split_head_free (sep : ascii) (s : string) :
  free_of sep (hd EmptyString (split sep s)) = true.
Proof.
  induction s as [| c s IH]; simpl.
  - reflexivity.
  - destruct (Ascii.eqb c sep) eqn:E; simpl.
    + reflexivity.
    + destruct (split sep s) as [| p ps]; simpl in *; rewrite E; simpl;
        [reflexivity | exact IH].
Qed.

Lemma split_head_decomposes (sep : ascii) (s : string) :
  s = hd EmptyString (split sep s) \/
  exists rest : string, s = (hd EmptyString (split sep s) ++ String sep rest)%string.
Proof.
  induction s as [| c s IH]; simpl.
  - left. reflexivity.
  - destruct (Ascii.eqb c sep) eqn:E; simpl.
    + apply Ascii.eqb_eq in E. subst. right. exists s. reflexivity.
    + destruct (split sep s) as [| p ps]; simpl in *;
        destruct IH as [IH | [rest IH]].
      * left. rewrite IH. reflexivity.
      * right. exists rest. rewrite IH. reflexivity.
      * left. rewrite <- IH. reflexivity.
      * right. exists rest. rewrite IH at 1. reflexivity.
Qed.

(** X13. The prefix that [ranking_step] looks up is the part of the strategy
    name before its first underscore: it is the one string without
    underscore that is the whole name or is followed in the name by an
    underscore. *)
Theorem strategy_prefix_characterization (name p : string) :
  strategy_prefix name = p <->
  free_of "_" p = true /\
  (name = p \/ exists rest : string, name = (p ++ String "_" rest)%string).
Proof.
  split.
  - intros <-. unfold strategy_prefix. split.
    + apply split_head_free.
    + apply split_head_decomposes.
  - intros [Hp [-> | [rest ->]]].
    + apply (strategy_prefix_before p EmptyString Hp).
    + apply (strategy_prefix_before p rest Hp).
Qed.

(** X14. When a request of the round is not a position of the pool,
    [active_callback] raises [IndexError] and returns no record; nothing is
    evaluated or plotted after [query_samples]. *)
Theorem out_of_range_request_aborts (self : QuerySampler) (vis : bool) (w : World)
    (acq_inds : list nat) (acq_vals : list Q) :
  fst (query_samples self w) = Ok (acq_inds, acq_vals) ->
  (exists ind : nat,
     In ind acq_inds /\ length (pool (train_set (datamodule w))) <= ind) ->
  fst (active_callback self vis w) = Raise IndexError /\
  snd (active_callback self vis w) = snd (query_samples self w).
Proof.
  intros Hq Hout.
  assert (Hrun : active_callback self vis w
                 = (Raise IndexError, snd (query_samples self w))).
  { unfold active_callback, bind at 1.
    pose proof (frame_query_samples self w) as F1.
    destruct (query_samples self w) as [[[inds vals] | e] w1]; simpl in Hq, F1;
      [| discriminate].
    injection Hq as -> ->. cbn [snd].
    unfold bind at 1. unfold get_datamodule at 1. unfold bind at 1.
    rewrite F1. apply lookup_all_none in Hout.
    rewrite obtain_data_from_pool_run, Hout. reflexivity. }
  rewrite Hrun. split; reflexivity.
Qed.

End Theory.

(** * The concrete round, checked *)

#[local] Existing Instance Scenario.imports.

(** The example of the specification: the three highest scores are at the
    indices 1, 3 and 7, in that order. *)
Example scenario_ranking :
  fst (ranking_step (Scenario.sampler "entropy_mc") Scenario.pl [] Scenario.w0)
  = Ok ([1; 3; 7], [9 # 10; 9 # 10; 9 # 10]%Q).
Proof. reflexivity. Qed.

Example scenario_query_samples :
  fst (query_samples (Scenario.sampler "bald") Scenario.w0)
  = Ok ([2; 6; 14], [9 # 10; 9 # 10; 9 # 10]%Q).
Proof. reflexivity. Qed.

(** The visualization of the scenario always fails: the round returns its
    record all the same, and the warning is the last thing logged. *)
Example scenario_failing_visualization :
  fst (active_callback (Scenario.sampler "bald") true Scenario.w0)
  = Ok Scenario.expected_store /\
  events (snd (active_callback (Scenario.sampler "bald") true Scenario.w0))
  = [Forward 4; Forward 4; Forward 2; Forward 2; Forward 1; Print no_vis_message].
Proof. split; reflexivity. Qed.

(** With a working backend both figures are saved, named after the count. *)
Example scenario_visualization :
  events (snd (@active_callback Scenario.imports_plotting
                 (Scenario.sampler "bald") true Scenario.w0))
  = [Forward 4; Forward 4; Forward 2; Forward 2; Forward 1;
     SaveFig "./labeled_samples_2.pdf"; Clf;
     SaveFig "./labelled_targets_2.pdf"; Clf].
Proof. reflexivity. Qed.

(** The diversity sampler of the scenario keeps its call contract. *)
Example scenario_diversity_contract :
  policy_available (Scenario.sampler "badge") Scenario.pl [] /\
  policy_available (Scenario.sampler "badge") Scenario.pl_empty [].
Proof.
  split; right; (split; [reflexivity |]).
  - unfold diversity_contract, ranking_shape. simpl.
    split; [vm_compute; lia |].
    split; [reflexivity |]. split; [reflexivity |].
    split; [repeat constructor; simpl; intuition lia |].
    repeat constructor; vm_compute; lia.
  - unfold diversity_contract. simpl. split; reflexivity.
Qed.

Example scenario_diversity :
  fst (ranking_step (Scenario.sampler "badge") Scenario.pl [] Scenario.w0)
  = Ok ([0; 1; 2], [0; 0; 0]%Q).
Proof. reflexivity. Qed.

Example scenario_prefix :
  strategy_prefix "entropy_mc_dropout" = "entropy" /\
  strategy_prefix "bald" = "bald" /\
  strategy_prefix "" = "" /\
  split "_" "a__b_" = ["a"; ""; "b"; ""].
Proof. repeat split. Qed.

Example scenario_argmax :
  argmax [1 # 2; 3 # 4; 3 # 4; 1 # 4]%Q = Some 1 /\ argmax [] = None.
Proof. split; reflexivity. Qed.

(** ** The theorems at the concrete round *)

Lemma ranking_step_selection_size_witness :
  policy_available (Scenario.sampler "entropy") Scenario.pl [] /\
  exists (inds : list nat) (vals : list Q),
    fst (ranking_step (Scenario.sampler "entropy") Scenario.pl [] Scenario.w0)
    = Ok (inds, vals) /\
    length inds = 3 /\ NoDup inds.
Proof.
  assert (Hp : policy_available (Scenario.sampler "entropy") Scenario.pl [])
    by (left; reflexivity).
  split; [exact Hp |].
  destruct (ranking_step_selection_size (Scenario.sampler "entropy")
              Scenario.pl [] Scenario.w0 Hp) as [Hshape Hex].
  destruct Hex as (inds & vals & Hr); [vm_compute; lia |].
  exists inds, vals.
  destruct (Hshape inds vals Hr) as (Hlen & _ & Hnd & _).
  split; [exact Hr | split; [exact Hlen | exact Hnd]].
Defined.

Lemma ranking_step_stable_topk_witness :
  combine [1; 3; 7] [9 # 10; 9 # 10; 9 # 10]%Q
  = sort_then_truncate 3
      (enumerate_from 0 (pool_scores (Scenario.sampler "entropy") Scenario.pl)) /\
  StronglySorted (fun a b => (score b <= score a)%Q)
    (combine [1; 3; 7] [9 # 10; 9 # 10; 9 # 10]%Q).
Proof.
  pose proof (ranking_step_stable_topk (Scenario.sampler "entropy") Scenario.pl []
                Scenario.w0 [1; 3; 7] [9 # 10; 9 # 10; 9 # 10]%Q
                eq_refl eq_refl) as Hc.
  cbv zeta in Hc. destruct Hc as (_ & _ & Hsel & Hsorted & _).
  split; [exact Hsel | exact Hsorted].
Defined.

Lemma empty_pool_aborts_round_witness :
  pool_size Scenario.pl_empty = 0 /\
  fst (ranking_step (Scenario.sampler "bald") Scenario.pl_empty [] Scenario.w_empty)
  = Raise EmptyPool /\
  fst (query_samples (Scenario.sampler "bald") Scenario.w_empty) = Raise EmptyPool /\
  fst (active_callback (Scenario.sampler "bald") true Scenario.w_empty)
  = Raise EmptyPool.
Proof.
  split; [reflexivity |].
  destruct (empty_pool_aborts_round (Scenario.sampler "bald") Scenario.pl_empty []
              Scenario.w_empty) as [Hr Hrest].
  - left. reflexivity.
  - reflexivity.
  - destruct (Hrest eq_refl eq_refl) as [Hq Ha].
    split; [exact Hr | split; [exact Hq | exact (Ha true)]].
Defined.

Lemma unsupported_strategy_aborts_witness :
  strategy_prefix (self_acq_method (Scenario.sampler "margin_top")) = "margin" /\
  query_samples (Scenario.sampler "margin_top") Scenario.w0
  = (Raise NotImplementedError, Scenario.w0) /\
  active_callback (Scenario.sampler "margin_top") true Scenario.w0
  = (Raise NotImplementedError, Scenario.w0).
Proof.
  split; [reflexivity |].
  destruct (unsupported_strategy_aborts (Scenario.sampler "margin_top") Scenario.w0)
    as (_ & Hq & Ha).
  - simpl. intros [E | [E | [E | []]]]; discriminate E.
  - simpl. intros [E | [E | []]]; discriminate E.
  - split; [exact Hq | exact (Ha true)].
Defined.

Lemma active_store_lengths_witness :
  fst (active_callback (Scenario.sampler "bald") true Scenario.w0)
  = Ok Scenario.expected_store /\
  exists acq_vals : list Q,
    length (storing.requests Scenario.expected_store)
    = length (storing.labels Scenario.expected_store) /\
    length (storing.labels Scenario.expected_store) = length acq_vals /\
    NoDup (storing.requests Scenario.expected_store).
Proof.
  split; [reflexivity |].
  destruct (active_store_lengths (Scenario.sampler "bald") true Scenario.w0
              Scenario.expected_store) as (acq_vals & _ & Hl & Hv & Hnd).
  - left. reflexivity.
  - simpl. intros i j _ _ Hij. lia.
  - reflexivity.
  - exists acq_vals. split; [exact Hl | split; [exact Hv | exact Hnd]].
Defined.

Lemma labels_aligned_with_requests_witness :
  exists (x : Tensor) (y : Z),
    nth_error (pool (train_set (datamodule Scenario.w0))) 6 = Some (x, y) /\
    nth_error (storing.labels Scenario.expected_store) 1 = Some y.
Proof.
  destruct labels_aligned_with_requests as [_ Hstore].
  destruct (Hstore (Scenario.sampler "bald") true Scenario.w0
              Scenario.expected_store eq_refl) as [_ Hnth].
  exact (Hnth 1 6 eq_refl).
Defined.

(** ** The further theorems at the concrete round *)

Lemma accuracy_is_fraction_correct_witness :
  fst (evaluate_accuracy Scenario.model (Some Scenario.val_split) "cuda:0"
         Scenario.w0)
  = Ok (2 # 3)%Q.
Proof.
  refine (proj1 (accuracy_is_fraction_correct Scenario.model Scenario.val_split
                   "cuda:0" Scenario.w0 _ _)).
  - intros s _. discriminate.
  - discriminate.
Defined.


Lemma active_store_accuracies_witness :
  fst (active_callback (Scenario.sampler "bald") true Scenario.w0)
  = Ok Scenario.expected_store /\
  (0 <= storing.accuracy_val Scenario.expected_store <= 1)%Q /\
  storing.accuracy_test Scenario.expected_store = 0%Q.
Proof.
  split; [reflexivity |].
  destruct (active_store_accuracies (Scenario.sampler "bald") true Scenario.w0
              Scenario.expected_store)
    as (Hval & _ & _ & Htest & _); [reflexivity |].
  split; [exact Hval | exact (Htest eq_refl)].
Defined.

Lemma empty_selection_aborts_witness :
  fst (query_samples Scenario.sampler_none Scenario.w0) = Ok ([], []) /\
  fst (active_callback Scenario.sampler_none false Scenario.w0) = Raise RuntimeError.
Proof.
  split; [reflexivity |].
  refine (proj1 (empty_selection_aborts Scenario.sampler_none false Scenario.w0 []
                   _)).
  reflexivity.
Defined.

Lemma figures_of_counts_differ_witness :
  In (SaveFig "./labeled_samples_1.pdf")
     (new_events (@vis_callback Scenario.imports_plotting 5 [] [] [] 3 (Some 1%Z))
        Scenario.w0) /\
  ~ In (SaveFig "./labeled_samples_1.pdf")
      (new_events (@vis_callback Scenario.imports_plotting 7 [] [] [] 3 (Some 2%Z))
         Scenario.w_empty).
Proof.
  assert (H1 : In (SaveFig "./labeled_samples_1.pdf")
                 (new_events
                    (@vis_callback Scenario.imports_plotting 5 [] [] [] 3 (Some 1%Z))
                    Scenario.w0))
    by (left; reflexivity).
  split; [exact H1 |].
  apply (@figures_of_counts_differ Scenario.imports_plotting 5 7 [] [] [] [] [] []
           3 3 (Some 1%Z) (Some 2%Z) Scenario.w0 Scenario.w_empty
           "./labeled_samples_1.pdf").
  - discriminate.
  - exact H1.
Defined.

Lemma out_of_range_request_aborts_witness :
  fst (query_samples (Scenario.sampler "bald") Scenario.w_stale)
  = Ok ([101; 103; 107], [9 # 10; 9 # 10; 9 # 10]%Q) /\
  fst (active_callback (Scenario.sampler "bald") true Scenario.w_stale)
  = Raise IndexError.
Proof.
  split; [reflexivity |].
  refine (proj1 (out_of_range_request_aborts (Scenario.sampler "bald") true
                   Scenario.w_stale [101; 103; 107] [9 # 10; 9 # 10; 9 # 10]%Q
                   _ _)).
  - reflexivity.
  - exists 101. split; [left; reflexivity | vm_compute; lia].
Defined.
